(** * openfabric_app: the creative pipeline, its memory store and its prompt heuristics

    A shallow embedding of [core/memory.py], [core/llm.py], [core/pipeline.py]
    and of the handler set-up of [main.py], followed by the properties the
    specification states about them.

    Conventions of the embedding:
    - Python values are the terms of [value]; a [dict] literal is an
      association list in the order of its keys; a [str] is held as its UTF-8
      encoding;
    - a call that may raise returns [res]; stateful code runs in the monad [M],
      which threads the interpreter-visible state [State] and keeps it when an
      exception is raised, as Python does;
    - what lies outside the repository (the clock, the temporary-file names,
      base64, the file system, the durable store, the model, the remote
      services) is an oracle: a field of [World], of [LLMHandler] or of [Stub]. *)

From Stdlib Require Import ZArith QArith_base List String Ascii Bool Lia Sorted.
From stdpp Require Import base gmap strings list sorting pretty.

Local Open Scope string_scope.
Local Open Scope list_scope.
Local Open Scope Z_scope.

(** ** Python values *)

#[local] Unset Elimination Schemes.
Inductive value : Type :=
| VNone
| VBool (b : bool)
| VInt (z : Z)
| VStr (s : string)
| VBytes (b : list Byte.byte)
| VList (l : list value)
| VDict (d : list (string * value)).
#[local] Set Elimination Schemes.

(** [type(v).__name__], as it appears in the interpreter's messages. *)
Definition type_name (v : value) : string :=
  match v with
  | VNone => "NoneType"
  | VBool _ => "bool"
  | VInt _ => "int"
  | VStr _ => "str"
  | VBytes _ => "bytes"
  | VList _ => "list"
  | VDict _ => "dict"
  end.

(** ** Exceptions *)

(** An exception is its class and [str(e)]. *)
Record exn := Exn { exn_class : string; exn_msg : string }.

Inductive res (A : Type) : Type :=
| Ok (a : A)
| Raise (e : exn).
Arguments Ok {A} a.
Arguments Raise {A} e.

Definition nl : string := String (ascii_of_nat 10) EmptyString.
Definition quoted (s : string) : string := "'" +:+ s +:+ "'".

(** ** Insertion-ordered dictionaries *)

Module Dict.
Section Dict.
Context {A : Type}.

(** [d.get(k)] *)
Fixpoint get (k : string) (d : list (string * A)) : option A :=
  match d with
  | [] => None
  | (k', v) :: d' => if String.eqb k k' then Some v else get k d'
  end.

(** [d[k] = v]: an existing key keeps its position, a new key goes last. *)
Fixpoint set (k : string) (v : A) (d : list (string * A)) : list (string * A) :=
  match d with
  | [] => [(k, v)]
  | (k', v') :: d' =>
      if String.eqb k k' then (k, v) :: d' else (k', v') :: set k v d'
  end.

(** [dict(items)] *)
Definition of_items (items : list (string * A)) : list (string * A) :=
  fold_left (fun d kv => set (fst kv) (snd kv) d) items [].

Definition keys (d : list (string * A)) : list string := map fst d.

(** What every Python [dict] satisfies: no key twice. *)
Definition wf (d : list (string * A)) : Prop := NoDup (keys d).
End Dict.
End Dict.

(** ** Subscripting and the methods used on service responses *)

Inductive index := IStr (k : string) | IInt (i : Z).

(** Python sequence indexing: a negative index counts from the end. *)
Definition seq_index {A : Type} (i : Z) (l : list A) : option A :=
  let n := Z.of_nat (length l) in
  if (0 <=? i) && (i <? n) then nth_error l (Z.to_nat i)
  else if (- n <=? i) && (i <? 0) then nth_error l (Z.to_nat (n + i))
  else None.

Definition string_of_ascii (c : ascii) : string := String c EmptyString.

Definition default_or {A : Type} (o : option A) (d : A) : A :=
  match o with Some x => x | None => d end.

(** [v[i]] *)
Definition getitem (v : value) (i : index) : res value :=
  match v, i with
  | VDict d, IStr k =>
      match Dict.get k d with
      | Some x => Ok x
      | None => Raise (Exn "KeyError" (quoted k))
      end
  | VDict d, IInt z => Raise (Exn "KeyError" (pretty z))
  | VList l, IInt z =>
      match seq_index z l with
      | Some x => Ok x
      | None => Raise (Exn "IndexError" "list index out of range")
      end
  | VList _, IStr _ =>
      Raise (Exn "TypeError" "list indices must be integers or slices, not str")
  | VStr s, IInt z =>
      match seq_index z (list_ascii_of_string s) with
      | Some c => Ok (VStr (string_of_ascii c))
      | None => Raise (Exn "IndexError" "string index out of range")
      end
  | VStr _, IStr _ =>
      Raise (Exn "TypeError" "string indices must be integers, not 'str'")
  | VBytes b, IInt z =>
      match seq_index z b with
      | Some c => Ok (VInt (Z.of_N (Byte.to_N c)))
      | None => Raise (Exn "IndexError" "index out of range")
      end
  | VBytes _, IStr _ =>
      Raise (Exn "TypeError" "byte indices must be integers or slices, not str")
  | _, _ =>
      Raise (Exn "TypeError" (quoted (type_name v) +:+ " object is not subscriptable"))
  end.

(** [v.get(k, default)]; only a [dict] has the method among the values modelled. *)
Definition get_method (v : value) (k : string) (default : value) : res value :=
  match v with
  | VDict d => Ok (default_or (Dict.get k d) default)
  | _ => Raise (Exn "AttributeError"
                  (quoted (type_name v) +:+ " object has no attribute 'get'"))
  end.

(** ** The state a run can observe and change *)

(** An entry of either tier: [{'data': ..., 'timestamp': ...}]. *)
Record entry := Entry { data : value; timestamp : string }.

(** History of a run, in program order. It is ghost state: no operation reads
    it; the temporal properties are stated on it. *)
Inductive event :=
| EvExpand (prompt : string)
| EvSession (key : string) (e : entry)
| EvCall (app_id : string) (request : value) (outcome : res value)
| EvStore (suffix : string) (outcome : res string)
| EvPersist (key : string) (e : entry) (outcome : res unit).

Inductive level := ERROR | WARNING.

Record State := mkState {
  session_memory : list (string * entry);   (* MemoryHandler.session_memory *)
  db : gmap string entry;                    (* MemoryHandler.db *)
  files : gmap string (list Byte.byte);      (* the file system, path to content, without
                                                the database file of the durable tier,
                                                whose content is [db] *)
  ticks : nat;                               (* readings of the clock so far *)
  draws : nat;                               (* temporary names drawn so far *)
  log : list (level * string);               (* records handed to logging *)
  trace : list event
}.

Definition with_session (f : list (string * entry) -> list (string * entry))
    (st : State) : State :=
  mkState (f (session_memory st)) (db st) (files st) (ticks st) (draws st)
          (log st) (trace st).
Definition with_db (f : gmap string entry -> gmap string entry) (st : State) : State :=
  mkState (session_memory st) (f (db st)) (files st) (ticks st) (draws st)
          (log st) (trace st).
Definition with_files (f : gmap string (list Byte.byte) -> gmap string (list Byte.byte))
    (st : State) : State :=
  mkState (session_memory st) (db st) (f (files st)) (ticks st) (draws st)
          (log st) (trace st).
Definition tick (st : State) : State :=
  mkState (session_memory st) (db st) (files st) (S (ticks st)) (draws st)
          (log st) (trace st).
Definition draw (st : State) : State :=
  mkState (session_memory st) (db st) (files st) (ticks st) (S (draws st))
          (log st) (trace st).
Definition with_log (r : level * string) (st : State) : State :=
  mkState (session_memory st) (db st) (files st) (ticks st) (draws st)
          (log st ++ [r]) (trace st).
Definition with_event (ev : event) (st : State) : State :=
  mkState (session_memory st) (db st) (files st) (ticks st) (draws st)
          (log st) (trace st ++ [ev]).

(** A freshly constructed [MemoryHandler] in a process that has done nothing yet;
    the durable tier and the file system are what the previous processes left. *)
Definition initial_state (durable : gmap string entry)
    (fs : gmap string (list Byte.byte)) : State :=
  mkState [] durable fs 0 0 [] [].

(** ** The monad of stateful, fallible code *)

Definition M (A : Type) : Type := State -> res A * State.

Definition ret {A : Type} (a : A) : M A := fun st => (Ok a, st).
Definition raise {A : Type} (e : exn) : M A := fun st => (Raise e, st).
Definition lift {A : Type} (r : res A) : M A := fun st => (r, st).
Definition bind {A B : Type} (m : M A) (f : A -> M B) : M B :=
  fun st =>
    match m st with
    | (Ok a, st') => f a st'
    | (Raise e, st') => (Raise e, st')
    end.
(** [try: m except Exception as e: h e] *)
Definition try_except {A : Type} (m : M A) (h : exn -> M A) : M A :=
  fun st =>
    match m st with
    | (Ok a, st') => (Ok a, st')
    | (Raise e, st') => h e st'
    end.
Definition modify (f : State -> State) : M unit := fun st => (Ok tt, f st).

Notation "'let*' x ':=' m 'in' k" := (bind m (fun x => k))
  (at level 10, x name, m at level 100, k at level 200).
Notation "m '>>' k" := (bind m (fun _ => k))
  (at level 100, k at level 200, right associativity).

Definition emit (ev : event) : M unit := modify (with_event ev).
Definition logging_error (msg : string) : M unit := modify (with_log (ERROR, msg)).
Definition logging_warning (msg : string) : M unit := modify (with_log (WARNING, msg)).

(** ** What the environment decides *)

(** The arguments of one call of the model. *)
Record llm_request := {
  rq_prompt : string;
  max_tokens : Z;
  temperature : Q;
  stop : list string
}.

Record World := {
  (** the [n]-th reading of [datetime.now().isoformat()] in this process *)
  now_isoformat : nat -> string;
  (** [tempfile.gettempdir()] and the [n]-th random name [tempfile] draws *)
  tempdir : string;
  random_name : nat -> string;
  (** [base64.b64decode] *)
  b64decode : string -> res (list Byte.byte);
  (** a failure of the operating system when a path is created or written *)
  open_error : string -> option exn;
  write_error : string -> list Byte.byte -> option exn;
  (** a failure of the durable store on a write *)
  db_error : string -> entry -> option exn;
  (** [os.getenv(LLM_MODEL_PATH, ...)] and [os.path.exists] *)
  llm_model_path : string;
  path_exists : string -> bool;
  (** [Llama(model_path=..., n_ctx=2048, n_threads=4)]: the loaded model, or
      the exception the loader raises *)
  load_llama : string -> res (llm_request -> res value)
}.

Section Program.
Variable w : World.

(** ** core/memory.py: MemoryHandler *)

Definition datetime_now_isoformat : M string :=
  fun st => (Ok (now_isoformat w (ticks st)), tick st).

(** [save_session]: the entry is built (and the clock read) first, then stored. *)
Definition save_session (key : string) (d : value) : M unit :=
  let* ts := datetime_now_isoformat in
  let e := Entry d ts in
  modify (with_session (Dict.set key e)) >>
  emit (EvSession key e).

(** [get_session]: [self.session_memory.get(key, {}).get('data')]; an absent
    key reads as [None]. *)
Definition get_session (key : string) (st : State) : value :=
  match Dict.get key (session_memory st) with
  | Some e => data e
  | None => VNone
  end.

(** The write to the durable tier. The store is opened with [autocommit=True],
    so the assignment [self.db[key] = ...] commits by itself and the explicit
    [self.db.commit()] that follows finds nothing left to do: the two are one
    durable write, which either raises and leaves the tier as it was, or
    returns with the entry committed. *)
Definition db_setitem_commit (key : string) (e : entry) : M unit :=
  fun st =>
    match db_error w key e with
    | Some x => (Raise x, st)
    | None => (Ok tt, with_db (insert key e) st)
    end.

Definition save_persistent (key : string) (d : value) : M unit :=
  let* ts := datetime_now_isoformat in
  let e := Entry d ts in
  fun st =>
    let (r, st') := db_setitem_commit key e st in
    (r, with_event (EvPersist key e r) st').

(** [get_persistent]: [entry.get('data') if entry else None]; a stored entry is
    a two-key dict, hence true. *)
Definition get_persistent (key : string) (st : State) : value :=
  match db st !! key with
  | Some e => data e
  | None => VNone
  end.

(** [sorted(items, key=lambda x: x[1]['timestamp'], reverse=True)]: the stable
    sort by descending timestamp, strings compared as Python compares them.
    Among equal timestamps the order of the items is kept. *)
Fixpoint insert_desc (x : string * entry) (l : list (string * entry))
    : list (string * entry) :=
  match l with
  | [] => [x]
  | y :: l' =>
      if String.leb (timestamp (snd y)) (timestamp (snd x))
      then x :: y :: l'
      else y :: insert_desc x l'
  end.

Definition sorted_desc (items : list (string * entry)) : list (string * entry) :=
  fold_right insert_desc [] items.

(** [l[:n]]: a negative bound counts from the end. *)
Definition slice_to {A : Type} (n : Z) (l : list A) : list A :=
  if 0 <=? n then firstn (Z.to_nat n) l
  else firstn (Z.to_nat (Z.of_nat (length l) + n)) l.

Definition list_recent_sessions (n : Z) (st : State) : list (string * entry) :=
  let sorted_items := sorted_desc (session_memory st) in
  Dict.of_items (slice_to n sorted_items).

Definition clear_session : M unit := modify (with_session (fun _ => [])).

(** ** core/llm.py: LLMHandler *)

(** A [str] is held as its UTF-8 encoding, one [ascii] per byte.  [str.lower]
    is taken on the letters of ASCII, which is where the terms searched for
    live. *)
Definition lower_ascii (c : ascii) : ascii :=
  let n := nat_of_ascii c in
  if ((65 <=? n) && (n <=? 90))%nat then ascii_of_nat (n + 32) else c.

Fixpoint lower (s : string) : string :=
  match s with
  | EmptyString => EmptyString
  | String c s' => String (lower_ascii c) (lower s')
  end.

(** The white space of [str.strip] and [str.isspace], by the length of its
    encoding: U+0009..U+000D, U+001C..U+0020; U+0085, U+00A0; U+1680,
    U+2000..U+200A, U+2028, U+2029, U+202F, U+205F, U+3000. *)
Definition is_space (c : ascii) : bool :=
  let n := nat_of_ascii c in
  (((9 <=? n) && (n <=? 13)) || ((28 <=? n) && (n <=? 32)))%nat.

Definition is_space2 (c1 c2 : ascii) : bool :=
  let n1 := nat_of_ascii c1 in
  let n2 := nat_of_ascii c2 in
  ((n1 =? 194) && ((n2 =? 133) || (n2 =? 160)))%nat.

Definition is_space3 (c1 c2 c3 : ascii) : bool :=
  let n1 := nat_of_ascii c1 in
  let n2 := nat_of_ascii c2 in
  let n3 := nat_of_ascii c3 in
  (((n1 =? 225) && (n2 =? 154) && (n3 =? 128))
   || ((n1 =? 226) && (n2 =? 128)
       && (((128 <=? n3) && (n3 <=? 138)) || (n3 =? 168) || (n3 =? 169) || (n3 =? 175)))
   || ((n1 =? 226) && (n2 =? 129) && (n3 =? 159))
   || ((n1 =? 227) && (n2 =? 128) && (n3 =? 128)))%nat.

(** [str.lstrip]: white space is dropped from the front, one character (of
    one, two or three bytes) at a time. *)
Fixpoint lstrip_bytes (l : list ascii) : list ascii :=
  match l with
  | [] => []
  | c1 :: l1 =>
      if is_space c1 then lstrip_bytes l1
      else
        match l1 with
        | [] => l
        | c2 :: l2 =>
            if is_space2 c1 c2 then lstrip_bytes l2
            else
              match l2 with
              | [] => l
              | c3 :: l3 => if is_space3 c1 c2 c3 then lstrip_bytes l3 else l
              end
        end
  end.

(** [str.rstrip], on the reversed bytes: the last byte of a character comes
    first. *)
Fixpoint rstrip_rev (l : list ascii) : list ascii :=
  match l with
  | [] => []
  | c1 :: l1 =>
      if is_space c1 then rstrip_rev l1
      else
        match l1 with
        | [] => l
        | c2 :: l2 =>
            if is_space2 c2 c1 then rstrip_rev l2
            else
              match l2 with
              | [] => l
              | c3 :: l3 => if is_space3 c3 c2 c1 then rstrip_rev l3 else l
              end
        end
  end.

Definition strip (s : string) : string :=
  string_of_list_ascii
    (rev (rstrip_rev (rev (lstrip_bytes (list_ascii_of_string s))))).

(** [bytes.strip] removes the six characters of ASCII white space only. *)
Definition is_bytes_space (b : Byte.byte) : bool :=
  let n := Byte.to_nat b in
  (((9 <=? n) && (n <=? 13)) || (n =? 32))%nat.

Fixpoint drop_while {A : Type} (p : A -> bool) (l : list A) : list A :=
  match l with
  | [] => []
  | x :: l' => if p x then drop_while p l' else l
  end.

Definition bytes_strip (b : list Byte.byte) : list Byte.byte :=
  rev (drop_while is_bytes_space (rev (drop_while is_bytes_space b))).

(** [needle in hay] on strings *)
Fixpoint contains (needle hay : string) : bool :=
  match hay with
  | EmptyString => String.prefix needle EmptyString
  | String _ hay' => String.prefix needle hay || contains needle hay'
  end.

Definition _extract_lighting (text : string) : value :=
  VDict
    [ ("primary_light",
        VStr (if contains "sunlight" (lower text) then "natural" else "artificial"));
      ("mood",
        VStr (if existsb (fun x => contains x (lower text)) ["bright"; "sunny"; "daylight"]
              then "bright" else "dark")) ].

Definition _extract_composition (text : string) : value :=
  VDict
    [ ("perspective",
        VStr (if existsb (fun x => contains x (lower text)) ["panorama"; "wide"; "vast"]
              then "wide" else "close"));
      ("focus",
        VStr (if contains "foreground" (lower text) then "foreground" else "background")) ].

(** A constructed handler holds the loaded model, which answers a request or
    raises; whatever it answers is a Python value. *)
Record LLMHandler := { llm : llm_request -> res value }.

Definition dq : string := String (ascii_of_nat 34) EmptyString.

(** [v + s] for a string [s] *)
Definition add_str (v : value) (s : string) : res string :=
  match v with
  | VStr t => Ok (t +:+ s)
  | VBytes _ => Raise (Exn "TypeError" "can't concat str to bytes")
  | VList _ =>
      Raise (Exn "TypeError"
               ("can only concatenate list (not " +:+ dq +:+ "str" +:+ dq +:+ ") to list"))
  | _ =>
      Raise (Exn "TypeError"
               ("unsupported operand type(s) for +: " +:+ quoted (type_name v)
                +:+ " and 'str'"))
  end.

(** [v.strip()]: a method of [str] and of [bytes]. *)
Definition strip_method (v : value) : res value :=
  match v with
  | VStr t => Ok (VStr (strip t))
  | VBytes b => Ok (VBytes (bytes_strip b))
  | _ => Raise (Exn "AttributeError"
                  (quoted (type_name v) +:+ " object has no attribute 'strip'"))
  end.

(** The argument [text] of the two hint extractors as they use it: [text.lower()]
    is searched for a [str]; [bytes] has [lower] too, but the search in it
    raises. *)
Definition hint_text (v : value) : res string :=
  match v with
  | VStr t => Ok t
  | VBytes _ => Raise (Exn "TypeError" "a bytes-like object is required, not 'str'")
  | _ => Raise (Exn "AttributeError"
                  (quoted (type_name v) +:+ " object has no attribute 'lower'"))
  end.

Definition rbind {A B : Type} (r : res A) (f : A -> res B) : res B :=
  match r with Ok a => f a | Raise e => Raise e end.

Notation "'let?' x ':=' r 'in' k" := (rbind r (fun x => k))
  (at level 10, x name, r at level 100, k at level 200).

(** [response['choices'][0]['text']] *)
Definition first_choice_text (response : value) : res value :=
  let? choices := getitem response (IStr "choices") in
  let? choice := getitem choices (IInt 0) in
  getitem choice (IStr "text").

Definition system_context : string :=
  "You are an expert artistic director specializing in both 2D and 3D art. " +:+ nl +:+
  "        Enhance and expand the given prompt with vivid, specific details that will guide both image " +:+ nl +:+
  "        generation and 3D modeling. Focus on lighting, composition, perspective, materials, and mood.".

Definition full_prompt (prompt : string) : string :=
  system_context +:+ nl +:+ "Original prompt: " +:+ prompt +:+ nl
  +:+ "Enhanced description:".

Definition technical_prompt : string :=
  "Extract key technical aspects for 3D modeling:".

(** The two calls of the model: the creative expansion and the technical
    extraction. *)
Definition creative_request (prompt : string) : llm_request :=
  {| rq_prompt := full_prompt prompt; max_tokens := 512; temperature := 7 # 10;
     stop := ["Original prompt:"; nl +:+ nl] |}.

Definition technical_request (context : string) : llm_request :=
  {| rq_prompt := context +:+ technical_prompt; max_tokens := 256;
     temperature := 3 # 10; stop := [] |}.

(** The body of the [try] of [expand_prompt]; it touches no state. *)
Definition expansion (h : LLMHandler) (prompt : string) : res value :=
  let? response := llm h (creative_request prompt) in
  let? text0 := first_choice_text response in
  let? context := add_str text0 nl in
  let? tech_response := llm h (technical_request context) in
  let? expanded_prompt := rbind (first_choice_text response) strip_method in
  let? text2 := rbind (first_choice_text response) hint_text in
  let? text3 := rbind (first_choice_text response) hint_text in
  let? technical_params := rbind (first_choice_text tech_response) strip_method in
  Ok (VDict
        [ ("expanded_prompt", expanded_prompt);
          ("style_hints",
            VDict [ ("lighting", _extract_lighting text2);
                    ("composition", _extract_composition text3) ]);
          ("technical_params", technical_params) ]).

Definition expand_prompt (h : LLMHandler) (prompt : string) : M value :=
  emit (EvExpand prompt) >>
  try_except
    (lift (expansion h prompt))
    (fun e =>
       logging_error ("LLM processing error: " +:+ exn_msg e) >>
       ret (VDict
              [ ("expanded_prompt", VStr prompt);
                ("style_hints", VDict []);
                ("technical_params", VStr "") ])).

(** ** core/pipeline.py: Pipeline *)

(** The remote services: [stub.call(app_id, request, session_id)]. *)
Record Stub := { call : string -> value -> string -> res value }.

Record Pipeline := {
  p_llm : option LLMHandler;   (* [None] when main.config could not load the model *)
  text2img_id : string;
  img2_3d_id : string
}.

(** [tempfile.NamedTemporaryFile(suffix=..., delete=False)]: candidate names
    [<tempdir>/tmp<random><suffix>] are drawn until one does not exist yet, which
    is then created empty; after [TMP_MAX] candidates the call gives up.
    [tempfile.TMP_MAX] is [os.TMP_MAX], which is 238328 on Linux. *)
Definition TMP_MAX : nat := (62 * 62 * 62)%nat.

Definition candidate (suffix : string) (n : nat) : string :=
  tempdir w +:+ "/tmp" +:+ random_name w n +:+ suffix.

Fixpoint mkstemp_inner (suffix : string) (attempts : nat) : M string :=
  match attempts with
  | O => raise (Exn "FileExistsError" "[Errno 17] No usable temporary file name found")
  | S attempts' =>
      fun st =>
        let name := candidate suffix (draws st) in
        match files st !! name with
        | Some _ => mkstemp_inner suffix attempts' (draw st)
        | None =>
            match open_error w name with
            | Some e => (Raise e, draw st)
            | None => (Ok name, with_files (insert name []) (draw st))
            end
        end
  end.

Definition NamedTemporaryFile (suffix : string) : M string :=
  mkstemp_inner suffix TMP_MAX.

(** [tmp.write(data)], flushed when the [with] block is left. *)
Definition tmp_write (path : string) (payload : value) : M unit :=
  match payload with
  | VBytes b =>
      fun st =>
        match write_error w path b with
        | Some e => (Raise e, st)
        | None => (Ok tt, with_files (insert path b) st)
        end
  | _ => raise (Exn "TypeError"
                  ("a bytes-like object is required, not " +:+ quoted (type_name payload)))
  end.

(** [base64.b64decode(data) if isinstance(data, str) else data] *)
Definition decode_if_str (payload : value) : M value :=
  match payload with
  | VStr s => let* b := lift (b64decode w s) in ret (VBytes b)
  | _ => ret payload
  end.

Definition save_temp (suffix what : string) (payload : value) : M string :=
  try_except
    (let* tmp := NamedTemporaryFile suffix in
     let* bytes := decode_if_str payload in
     tmp_write tmp bytes >>
     ret tmp)
    (fun e =>
       logging_error ("Error saving " +:+ what +:+ ": " +:+ exn_msg e) >>
       raise e).

Definition recorded (suffix : string) (m : M string) : M string :=
  fun st => let (r, st') := m st in (r, with_event (EvStore suffix r) st').

Definition _save_temp_image (image_data : value) : M string :=
  recorded ".png" (save_temp ".png" "image" image_data).

Definition _save_temp_model (model_data : value) : M string :=
  recorded ".glb" (save_temp ".glb" "model" model_data).

Definition stub_call (stub : Stub) (app_id : string) (request : value)
    (session_id : string) : M value :=
  fun st =>
    let r := call stub app_id request session_id in
    (r, with_event (EvCall app_id request r) st).

(** [self.llm.expand_prompt(prompt)]: the attribute is looked up on whatever
    the pipeline was constructed with. *)
Definition llm_expand_prompt (p : Pipeline) (prompt : string) : M value :=
  match p_llm p with
  | Some h => expand_prompt h prompt
  | None => raise (Exn "AttributeError"
                     "'NoneType' object has no attribute 'expand_prompt'")
  end.

Definition prompt_key (session_id : string) : string := "prompt_" +:+ session_id.
Definition image_key (session_id : string) : string := "image_" +:+ session_id.
Definition model_key (session_id : string) : string := "model_" +:+ session_id.
Definition creation_key (session_id : string) : string := "creation_" +:+ session_id.

Definition subscript (v : value) (k : string) : M value := lift (getitem v (IStr k)).

(** The body of the [try] of [process]. *)
Definition process_body (p : Pipeline) (prompt : string) (stub : Stub)
    (session_id : string) : M value :=
  (* 1. Expand prompt with LLM *)
  let* expanded := llm_expand_prompt p prompt in
  save_session (prompt_key session_id)
    (VDict [("original", VStr prompt); ("expanded", expanded)]) >>
  (* 2. Generate image from expanded prompt *)
  let* expanded_prompt := subscript expanded "expanded_prompt" in
  let* img_result :=
    stub_call stub (text2img_id p) (VDict [("prompt", expanded_prompt)]) session_id in
  let* image := subscript img_result "image" in
  let* img_path := _save_temp_image image in
  let* style_hints := subscript expanded "style_hints" in
  save_session (image_key session_id)
    (VDict [("path", VStr img_path); ("metadata", style_hints)]) >>
  (* 3. Convert image to 3D *)
  let* technical_params := subscript expanded "technical_params" in
  let* model_result :=
    stub_call stub (img2_3d_id p)
      (VDict [("image", VStr img_path); ("params", technical_params)]) session_id in
  let* model := subscript model_result "model" in
  let* model_path := _save_temp_model model in
  let* metadata := lift (get_method model_result "metadata" (VDict [])) in
  save_session (model_key session_id)
    (VDict [("path", VStr model_path); ("metadata", metadata)]) >>
  (* 4. Save to persistent storage for long-term memory *)
  let* style_hints' := subscript expanded "style_hints" in
  let* metadata' := lift (get_method model_result "metadata" (VDict [])) in
  save_persistent (creation_key session_id)
    (VDict
       [ ("prompt", VDict [("original", VStr prompt); ("expanded", expanded)]);
         ("image", VDict [("path", VStr img_path); ("metadata", style_hints')]);
         ("model", VDict [("path", VStr model_path); ("metadata", metadata')]) ]) >>
  ret (VDict
         [ ("status", VStr "success");
           ("prompt", expanded);
           ("image_path", VStr img_path);
           ("model_path", VStr model_path);
           ("session_id", VStr session_id) ]).

Definition error_result (e : exn) (session_id : string) : value :=
  VDict
    [ ("status", VStr "error");
      ("error", VStr (exn_msg e));
      ("session_id", VStr session_id) ].

(** [process] is declared [async] and awaits nothing: driven to completion, a
    call runs this body once, from its first line to a [return]. *)
Definition process (p : Pipeline) (prompt : string) (stub : Stub)
    (session_id : string) : M value :=
  try_except (process_body p prompt stub session_id)
    (fun e =>
       logging_error ("Pipeline error: " +:+ exn_msg e) >>
       ret (error_result e session_id)).

(** ** main.py: the handlers a process sets up *)

Definition TEXT2IMG_APP_ID : string := "f0997a01-d6d3-a5fe-53d8-561300318557".
Definition IMG2_3D_APP_ID : string := "69543f29-4d41-4afc-7f29-3d51591f11eb".

(** [LLMHandler.__init__] *)
Definition LLMHandler_init (model_path : string) : res LLMHandler :=
  if negb (path_exists w model_path)
  then Raise (Exn "FileNotFoundError" ("Model file not found at " +:+ model_path))
  else rbind (load_llama w model_path) (fun model => Ok {| llm := model |}).

(** The module-level handlers; the memory handler is the two tiers of [State]. *)
Record Globals := {
  llm_handler : option LLMHandler;
  pipeline : option Pipeline
}.

Definition no_handlers : Globals := {| llm_handler := None; pipeline := None |}.

(** [config], without the bookkeeping of the per-user configurations: only a
    [FileNotFoundError] of the handler's construction is caught. *)
Definition config (g : Globals) : M Globals :=
  let* h :=
    match llm_handler g with
    | Some h => ret (Some h)
    | None =>
        let model_path := llm_model_path w in
        match LLMHandler_init model_path with
        | Ok h => ret (Some h)
        | Raise e =>
            if String.eqb (exn_class e) "FileNotFoundError"
            then logging_warning ("LLM model not found at " +:+ model_path
                                  +:+ ". Some features may be limited.") >>
                 ret None
            else raise e
        end
    end in
  let p :=
    match pipeline g with
    | Some p => p
    | None => {| p_llm := h; text2img_id := TEXT2IMG_APP_ID;
                 img2_3d_id := IMG2_3D_APP_ID |}
    end in
  ret {| llm_handler := h; pipeline := Some p |}.

End Program.

(** ** main.py: execute *)

Section Execute.
Variable w : World.

(** The per-user configuration; [execute] reads its [app_ids] only. *)
Record ConfigClass := { app_ids : list string }.

(** Calling a function declared [async def] runs none of its body: the call
    returns a coroutine object, and the body would run only if the coroutine
    were awaited. *)
Inductive coroutine := Coroutine (body : M value).

(** [c[k]] and [c.get(k, default)] on a coroutine object. *)
Definition coroutine_getitem (c : coroutine) (k : string) : res value :=
  Raise (Exn "TypeError" "'coroutine' object is not subscriptable").

Definition coroutine_get (c : coroutine) (k : string) (default : value) : res value :=
  Raise (Exn "AttributeError" "'coroutine' object has no attribute 'get'").

(** [status == 'success'] *)
Definition equals_str (v : value) (s : string) : bool :=
  match v with
  | VStr t => String.eqb t s
  | _ => false
  end.

(** What [execute] takes from outside the files at hand: the constructor of
    [core.stub.Stub], the identifier [uuid.uuid4()] draws for the request, the
    text the success branch formats out of the result with subscripts, slicing
    and [os.path.basename], and [str] on a value. *)
Record Host := {
  make_stub : list string -> res Stub;
  uuid4 : string;
  success_text : string -> coroutine -> res string;
  str_of : value -> string
}.

Variable host : Host.

(** [execute]: the value is the text assigned to [model.response.message].
    [request_prompt] is [request.prompt], [None] when the request has none. *)
Definition execute (g : Globals) (configurations : list (string * ConfigClass))
    (request_prompt : option string) : M string :=
  match request_prompt with
  | None | Some EmptyString => ret "Error: No prompt provided"
  | Some prompt =>
      match Dict.get "super-user" configurations with
      | None => ret "Error: No valid configuration found"
      | Some user_config =>
          match app_ids user_config with
          | [] => ret "Error: No valid configuration found"
          | _ :: _ =>
              (* Initialize the Stub with app IDs: outside the [try] *)
              let* stub := lift (make_stub host (app_ids user_config)) in
              try_except
                (let session_id := uuid4 host in
                 let* result :=
                   match pipeline g with
                   | Some p => ret (Coroutine (process w p prompt stub session_id))
                   | None =>
                       raise (Exn "AttributeError"
                                "'NoneType' object has no attribute 'process'")
                   end in
                 let* status := lift (coroutine_getitem result "status") in
                 if equals_str status "success"
                 then lift (success_text host session_id result)
                 else
                   let* error :=
                     lift (coroutine_get result "error" (VStr "Unknown error")) in
                   ret ("Error in pipeline: " +:+ str_of host error))
                (fun e =>
                   logging_error ("Pipeline execution error: " +:+ exn_msg e) >>
                   ret ("Error processing request: " +:+ exn_msg e))
          end
      end
  end.

End Execute.

(** * Vocabulary of the specification *)

Section Vocabulary.
Variable w : World.

(** A client of the memory store: any sequence of calls of its methods. A
    call that raises is the client's to handle; what it leaves behind is the
    state the next call sees. *)
Inductive mem_call :=
| SaveSession (key : string) (d : value)
| GetSession (key : string)
| SavePersistent (key : string) (d : value)
| GetPersistent (key : string)
| ListRecentSessions (n : Z)
| ClearSession.

Definition after_call (c : mem_call) (st : State) : State :=
  match c with
  | SaveSession k d => snd (save_session w k d st)
  | SavePersistent k d => snd (save_persistent w k d st)
  | ClearSession => snd (clear_session st)
  | GetSession _ | GetPersistent _ | ListRecentSessions _ => st
  end.

Definition after_calls (cs : list mem_call) (st : State) : State :=
  fold_left (fun st c => after_call c st) cs st.

Definition writes_session (k : string) (c : mem_call) : bool :=
  match c with
  | SaveSession k' _ => String.eqb k k'
  | _ => false
  end.

Definition clears_session (c : mem_call) : bool :=
  match c with
  | ClearSession => true
  | _ => false
  end.

(** Recency of session items is read off their timestamps: [not_older a b]
    when the timestamp of [a] is at least that of [b]. *)
Definition ts (x : string * entry) : string := timestamp (snd x).
Definition not_older (a b : string * entry) : Prop := String.le (ts b) (ts a).

(** A term occurs in a text, case-insensitively: some stretch of the text
    reads as the term once lowered. *)
Definition occurs (term text : string) : Prop :=
  exists pre mid post, text = pre +:+ mid +:+ post /\ lower mid = term.

(** What the artifact store is to write for a payload: the base64 decoding
    of a text, a raw binary as it is; nothing else can be written. *)
Definition payload_bytes (payload : value) : res (list Byte.byte) :=
  match payload with
  | VStr s => b64decode w s
  | VBytes b => Ok b
  | _ => Raise (Exn "TypeError"
                  ("a bytes-like object is required, not " +:+ quoted (type_name payload)))
  end.

Definition has_suffix (suffix path : string) : Prop :=
  exists stem, path = stem +:+ suffix.

(** The contract of one artifact-store operation, for the extension of its
    kind. A returned locator did not exist before, carries the extension, and
    now holds the bytes of the payload, nothing else having changed in the file
    system; no step of the operation failed. A payload that cannot be decoded
    makes the operation raise. And the operation does return: when the first
    name drawn is free and neither the decoding nor the file system fails, it
    returns that name. *)
Definition stores (suffix : string) (store : value -> M string) : Prop :=
  (forall payload st path st',
     store payload st = (Ok path, st') ->
     files st !! path = None
     /\ has_suffix suffix path
     /\ open_error w path = None
     /\ exists b, payload_bytes payload = Ok b
                  /\ write_error w path b = None
                  /\ files st' = <[path := b]> (files st))
  /\ (forall payload st e,
        payload_bytes payload = Raise e ->
        exists e', fst (store payload st) = Raise e')
  /\ (forall payload st b,
        let path := candidate w suffix (draws st) in
        payload_bytes payload = Ok b ->
        files st !! path = None ->
        open_error w path = None ->
        write_error w path b = None ->
        fst (store payload st) = Ok path).

(** The mappings [expand_prompt] can return. *)
Definition fallback_expansion (prompt : string) : value :=
  VDict [ ("expanded_prompt", VStr prompt);
          ("style_hints", VDict []);
          ("technical_params", VStr "") ].

Definition is_expansion (v : value) : Prop :=
  exists expanded_prompt style_hints technical_params,
    v = VDict [ ("expanded_prompt", expanded_prompt);
                ("style_hints", style_hints);
                ("technical_params", technical_params) ].

(** *** Runs of the pipeline *)

(** The steps a run records, without their data. *)
Inductive step :=
| SExpand
| SSession (key : string)
| SCall (app_id : string)
| SStore (suffix : string)
| SPersist (key : string).

Definition step_of (ev : event) : step :=
  match ev with
  | EvExpand _ => SExpand
  | EvSession k _ => SSession k
  | EvCall a _ _ => SCall a
  | EvStore s _ => SStore s
  | EvPersist k _ _ => SPersist k
  end.

(** The four stages in their fixed order: each stage's action, then its record. *)
Definition plan (p : Pipeline) (session_id : string) : list step :=
  [ SExpand; SSession (prompt_key session_id);
    SCall (text2img_id p); SStore ".png"; SSession (image_key session_id);
    SCall (img2_3d_id p); SStore ".glb"; SSession (model_key session_id);
    SPersist (creation_key session_id) ].

(** The session records a history wrote, oldest first. *)
Definition session_writes (evs : list event) : list (string * entry) :=
  flat_map (fun ev => match ev with EvSession k e => [(k, e)] | _ => [] end) evs.

(** A step that was recorded with a failure. *)
Definition raised (ev : event) : Prop :=
  match ev with
  | EvCall _ _ (Raise _) | EvStore _ (Raise _) | EvPersist _ _ (Raise _) => True
  | _ => False
  end.

Definition success_result (expanded : value) (img_path model_path session_id : string)
    : value :=
  VDict [ ("status", VStr "success");
          ("prompt", expanded);
          ("image_path", VStr img_path);
          ("model_path", VStr model_path);
          ("session_id", VStr session_id) ].

(** [PersistentCreationRecord]: all of prompt, image and model. *)
Definition creation_record (prompt image model : value) : value :=
  VDict [("prompt", prompt); ("image", image); ("model", model)].

Definition replay (writes : list (string * entry)) (d : list (string * entry))
    : list (string * entry) :=
  fold_left (fun d kv => Dict.set (fst kv) (snd kv) d) writes d.

(** [reached st st1 evs]: from [st], a run has recorded [evs] so far and is in
    [st1]; it has written the session records of [evs] and nothing durable. *)
Definition reached (st st1 : State) (evs : list event) : Prop :=
  trace st1 = trace st ++ evs
  /\ session_memory st1 = replay (session_writes evs) (session_memory st)
  /\ db st1 = db st.

(** What an operation on files leaves alone. *)
Definition same_tiers (st st' : State) : Prop :=
  session_memory st' = session_memory st /\ db st' = db st
  /\ ticks st' = ticks st /\ trace st' = trace st.

(** The exception a failed step was recorded with. *)
Definition raised_with (e : exn) (ev : event) : Prop :=
  match ev with
  | EvCall _ _ (Raise x) | EvStore _ (Raise x) | EvPersist _ _ (Raise x) => x = e
  | _ => True
  end.

(** A step that failed, and the exception it failed with. *)
Definition failed_with (e : exn) (ev : event) : Prop :=
  match ev with
  | EvCall _ _ (Raise x) | EvStore _ (Raise x) | EvPersist _ _ (Raise x) => x = e
  | _ => False
  end.

Definition session_key_of (s : step) : list string :=
  match s with SSession k => [k] | _ => [] end.

Definition is_success_result (v : value) (session_id : string) : Prop :=
  exists expanded img_path model_path,
    is_expansion expanded
    /\ v = success_result expanded img_path model_path session_id.

Definition is_error_result (v : value) : Prop :=
  exists e session_id, v = error_result e session_id.

(** *** What the environment does to a run *)

(** The name a temporary file gets: of the candidates, from the [n]-th on,
    the first that does not exist in the file system [fs]; none when
    [attempts] candidates in a row exist. *)
Fixpoint first_free (suffix : string) (fs : gmap string (list Byte.byte))
    (attempts n : nat) : option nat :=
  match attempts with
  | O => None
  | S attempts' =>
      match fs !! candidate w suffix n with
      | Some _ => first_free suffix fs attempts' (S n)
      | None => Some n
      end
  end.

(** The environment lets an artifact be stored: in the file system [fs], with
    [n] names drawn so far, the [m]-th name is the first free one and is
    [path], the file can be created, the payload gives the bytes [b] and the
    file system takes them. *)
Definition store_succeeds (suffix : string) (payload : value)
    (fs : gmap string (list Byte.byte)) (n m : nat) (path : string)
    (b : list Byte.byte) : Prop :=
  first_free suffix fs TMP_MAX n = Some m
  /\ path = candidate w suffix m
  /\ open_error w path = None
  /\ payload_bytes payload = Ok b
  /\ write_error w path b = None.

(** The environment makes the storing of an artifact fail with [e]: no free
    name is left, or the file cannot be created, or the payload cannot be
    decoded, or the file system refuses the bytes. *)
Definition store_fails (suffix : string) (payload : value)
    (fs : gmap string (list Byte.byte)) (n : nat) (e : exn) : Prop :=
  match first_free suffix fs TMP_MAX n with
  | None => e = Exn "FileExistsError" "[Errno 17] No usable temporary file name found"
  | Some m =>
      let path := candidate w suffix m in
      open_error w path = Some e
      \/ (open_error w path = None
          /\ (payload_bytes payload = Raise e
              \/ exists b, payload_bytes payload = Ok b
                           /\ write_error w path b = Some e))
  end.

(** The session records of a run: [PromptRecord], [ImageRecord], [ModelRecord]. *)
Definition prompt_record (prompt : string) (expanded : value) : value :=
  VDict [("original", VStr prompt); ("expanded", expanded)].

Definition image_record (img_path : string) (style_hints : value) : value :=
  VDict [("path", VStr img_path); ("metadata", style_hints)].

Definition model_record (model_path : string) (metadata : value) : value :=
  VDict [("path", VStr model_path); ("metadata", metadata)].

(** A run from [st] that ended in [st'] with the result [r] failed with [e]:
    it returned the error result for [e] and the session id, the session tier
    holds the given records as they were written, and the durable tier is as
    it was, so that a session that had no creation record has none. *)
Definition ends_in_error (e : exn) (session_id : string)
    (records : list (string * entry)) (st : State) (r : res value) (st' : State)
    : Prop :=
  r = Ok (VDict [ ("status", VStr "error");
                  ("error", VStr (exn_msg e));
                  ("session_id", VStr session_id) ])
  /\ (forall k x, (k, x) ∈ records -> Dict.get k (session_memory st') = Some x)
  /\ db st' = db st
  /\ (db st !! creation_key session_id = None ->
      db st' !! creation_key session_id = None).

(** The state of a run, its log and its history apart. *)
Definition at_state (s : State) (sm : list (string * entry)) (d : gmap string entry)
    (fs : gmap string (list Byte.byte)) (t n : nat) : Prop :=
  session_memory s = sm /\ db s = d /\ files s = fs /\ ticks s = t /\ draws s = n.

End Vocabulary.

(** * Vocabulary of the further properties *)

(** Calls that write the durable tier, that write its key [k], and calls that
    change the session tier. *)
Definition writes_durable (c : mem_call) : bool :=
  match c with
  | SavePersistent _ _ => true
  | _ => false
  end.

Definition writes_persistent (k : string) (c : mem_call) : bool :=
  match c with
  | SavePersistent k' _ => String.eqb k k'
  | _ => false
  end.

Definition changes_session (c : mem_call) : bool :=
  match c with
  | SaveSession _ _ | ClearSession => true
  | _ => false
  end.

(** The values that have a [strip] method: [str] and [bytes]. *)
Definition has_strip (v : value) : Prop :=
  (exists t, v = VStr t) \/ (exists b, v = VBytes b).

(** The items of a list that carry the timestamp [t], in their order. *)
Definition stamped (t : string) (l : list (string * entry)) : list (string * entry) :=
  filter (fun x => timestamp (snd x) = t) l.

(** A computation keeps a relation between the state it starts in and the
    state it ends in, whether it returns or raises. *)
Definition preserves {A : Type} (I : State -> State -> Prop) (m : M A) : Prop :=
  forall st r st', m st = (r, st') -> I st st'.

(** Every file of [files] that exists keeps its content. *)
Definition files_kept (st st' : State) : Prop :=
  forall p c, files st !! p = Some c -> files st' !! p = Some c.

(** What a run for a session leaves of the files it finds: the files of
    [files] as they were, and of the database file of the durable tier every
    record but the creation record of the session. *)
Definition existing_files_kept (session_id : string) (st st' : State) : Prop :=
  files_kept st st'
  /\ forall k, k <> creation_key session_id -> db st' !! k = db st !! k.

(** * A concrete environment *)

(** An environment in which nothing fails: a clock that advances by one second
    per reading, temporary names numbered in the order drawn, an empty
    temporary directory, and a base64 decoder that knows one text. *)
Definition demo_world : World := {|
  now_isoformat := fun n => "2024-05-01T10:00:0" +:+ pretty n;
  tempdir := "/tmp";
  random_name := fun n => "a" +:+ pretty n;
  b64decode := fun s =>
    if String.eqb s "aGk=" then Ok [Byte.x68; Byte.x69]
    else Raise (Exn "Error" "Incorrect padding");
  open_error := fun _ => None;
  write_error := fun _ _ => None;
  db_error := fun _ _ => None;
  llm_model_path := "models/llama-2-7b.gguf";
  path_exists := fun _ => false;
  load_llama := fun _ => Raise (Exn "ValueError" "Failed to load model from file")
|}.

(** Both services answer. *)
Definition demo_stub : Stub := {|
  call := fun app_id request session_id =>
    if String.eqb app_id TEXT2IMG_APP_ID
    then Ok (VDict [("image", VStr "aGk=")])
    else Ok (VDict [("model", VBytes [Byte.x67; Byte.x6c]);
                    ("metadata", VDict [("faces", VInt 12)])])
|}.

(** The image service is down. *)
Definition failing_stub : Stub := {|
  call := fun app_id request session_id =>
    if String.eqb app_id TEXT2IMG_APP_ID
    then Raise (Exn "ConnectionError" "image service unavailable")
    else Ok (VDict [("model", VBytes [Byte.x67; Byte.x6c])])
|}.

(** A model that answers both requests, and one whose every call raises. *)
Definition demo_handler : LLMHandler := {|
  llm := fun rq =>
    Ok (VDict [("choices",
                VList [VDict [("text",
                               VStr (if max_tokens rq =? 512
                                     then " A castle in bright SUNLIGHT, wide view "
                                     else " low-poly, stone "))]])])
|}.

Definition broken_handler : LLMHandler := {|
  llm := fun _ => Raise (Exn "RuntimeError" "llama_decode returned 1")
|}.

Definition pipeline_with (h : option LLMHandler) : Pipeline :=
  {| p_llm := h; text2img_id := TEXT2IMG_APP_ID; img2_3d_id := IMG2_3D_APP_ID |}.

Definition demo_state : State := initial_state ∅ ∅.

Definition demo_run : res value * State :=
  process demo_world (pipeline_with (Some demo_handler)) "a castle at sunset"
    demo_stub "s1" demo_state.

Definition degraded_run : res value * State :=
  process demo_world (pipeline_with (Some broken_handler)) "a castle at sunset"
    demo_stub "s1" demo_state.

Definition failed_run : res value * State :=
  process demo_world (pipeline_with (Some demo_handler)) "a castle at sunset"
    failing_stub "s2" demo_state.

(** Three session records, written one after the other. *)
Definition three_writes : State :=
  after_calls demo_world
    [ SaveSession "a" (VInt 1); SaveSession "b" (VInt 2); SaveSession "c" (VInt 3) ]
    demo_state.

(** The same environment once the model file is in place and loads. *)
Definition loaded_world : World := {|
  now_isoformat := now_isoformat demo_world;
  tempdir := tempdir demo_world;
  random_name := random_name demo_world;
  b64decode := b64decode demo_world;
  open_error := open_error demo_world;
  write_error := write_error demo_world;
  db_error := db_error demo_world;
  llm_model_path := llm_model_path demo_world;
  path_exists := fun _ => true;
  load_llama := fun _ => Ok (llm demo_handler)
|}.

(** An environment whose model file exists and is not a model. *)
Definition corrupt_world : World := {|
  now_isoformat := now_isoformat demo_world;
  tempdir := tempdir demo_world;
  random_name := random_name demo_world;
  b64decode := b64decode demo_world;
  open_error := open_error demo_world;
  write_error := write_error demo_world;
  db_error := db_error demo_world;
  llm_model_path := llm_model_path demo_world;
  path_exists := fun _ => true;
  load_llama := load_llama demo_world
|}.

(** The same environment with a durable store that cannot be written. *)
Definition readonly_world : World := {|
  now_isoformat := now_isoformat demo_world;
  tempdir := tempdir demo_world;
  random_name := random_name demo_world;
  b64decode := b64decode demo_world;
  open_error := open_error demo_world;
  write_error := write_error demo_world;
  db_error := fun _ _ =>
    Some (Exn "OperationalError" "attempt to write a readonly database");
  llm_model_path := llm_model_path demo_world;
  path_exists := path_exists demo_world;
  load_llama := load_llama demo_world
|}.

Definition readonly_run : res value * State :=
  process readonly_world (pipeline_with (Some demo_handler)) "a castle at sunset"
    demo_stub "s3" demo_state.

Definition demo_host : Host := {|
  make_stub := fun _ => Ok demo_stub;
  uuid4 := "7c9e6679-7425-40de-944b-e07fc1f90ae7";
  success_text := fun session_id _ => Ok "Successfully processed your request!";
  str_of := fun _ => "Unknown error"
|}.

Definition demo_configurations : list (string * ConfigClass) :=
  [("super-user", {| app_ids := [TEXT2IMG_APP_ID; IMG2_3D_APP_ID] |})].

(** The handlers as [config] leaves them when the model file is missing. *)
Definition degraded_handlers : Globals :=
  {| llm_handler := None; pipeline := Some (pipeline_with None) |}.

(** A session tier with one record, read at a later time. *)
Definition one_write : State :=
  after_calls demo_world [SaveSession "a" (VInt 1)] demo_state.

(** A model whose answers have no choices, and one whose second answer has
    none. *)
Definition mute_handler : LLMHandler := {|
  llm := fun _ => Ok (VDict [("choices", VList [])])
|}.

Definition half_mute_handler : LLMHandler := {|
  llm := fun rq =>
    if max_tokens rq =? 512
    then Ok (VDict [("choices", VList [VDict [("text", VStr "a tall castle")]])])
    else Ok (VDict [("choices", VList [])])
|}.

(** A model whose technical answer comes as bytes. *)
Definition bytes_handler : LLMHandler := {|
  llm := fun rq =>
    if max_tokens rq =? 512
    then Ok (VDict [("choices", VList [VDict [("text", VStr "a tall castle")]])])
    else Ok (VDict [("choices",
                     VList [VDict [("text",
                                    VBytes [Byte.x20; Byte.x6c; Byte.x6f; Byte.x0a])]])])
|}.

(** The result of [demo_run], and handlers that are all in place. *)
Definition demo_result : value :=
  success_result
    (VDict
       [ ("expanded_prompt", VStr "A castle in bright SUNLIGHT, wide view");
         ("style_hints",
           VDict
             [ ("lighting",
                 VDict [ ("primary_light", VStr "natural"); ("mood", VStr "bright") ]);
               ("composition",
                 VDict [ ("perspective", VStr "wide");
                         ("focus", VStr "background") ]) ]);
         ("technical_params", VStr "low-poly, stone") ])
    "/tmp/tmpa0.png" "/tmp/tmpa1.glb" "s1".

Definition demo_handlers : Globals :=
  {| llm_handler := Some demo_handler;
     pipeline := Some (pipeline_with (Some demo_handler)) |}.

(** What [demo_handler] makes of the prompt of the runs above. *)
Definition demo_expanded : value :=
  VDict
    [ ("expanded_prompt", VStr "A castle in bright SUNLIGHT, wide view");
      ("style_hints",
        VDict
          [ ("lighting",
              VDict [ ("primary_light", VStr "natural"); ("mood", VStr "bright") ]);
            ("composition",
              VDict [ ("perspective", VStr "wide");
                      ("focus", VStr "background") ]) ]);
      ("technical_params", VStr "low-poly, stone") ].

(** * Properties *)

(** ** Dictionaries *)

Section DictFacts.
Context {A : Type}.
Implicit Types (d : list (string * A)) (k : string) (v : A).

Lemma dict_get_set_eq k v d : Dict.get k (Dict.set k v d) = Some v.
Proof.
  induction d as [|[k' v'] d IH]; simpl.
  - now rewrite String.eqb_refl.
  - destruct (String.eqb k k') eqn:E; simpl; rewrite ?String.eqb_refl, ?E; auto.
Qed.

Lemma dict_get_set_ne k k' v d :
  k <> k' -> Dict.get k' (Dict.set k v d) = Dict.get k' d.
Proof.
  intros Hne. induction d as [|[k0 v0] d IH]; simpl.
  - destruct (String.eqb k' k) eqn:E; auto.
    apply String.eqb_eq in E. congruence.
  - destruct (String.eqb k k0) eqn:E; simpl.
    + apply String.eqb_eq in E. subst k0.
      destruct (String.eqb k' k) eqn:E'; auto.
      apply String.eqb_eq in E'. congruence.
    + now rewrite IH.
Qed.

Lemma dict_get_None k d : Dict.get k d = None <-> k ∉ Dict.keys d.
Proof.
  induction d as [|[k' v'] d IH]; simpl.
  - split; [intros _; apply not_elem_of_nil | reflexivity].
  - rewrite not_elem_of_cons. destruct (String.eqb k k') eqn:E.
    + apply String.eqb_eq in E. subst. split; [discriminate | tauto].
    + apply String.eqb_neq in E. rewrite IH. tauto.
Qed.

Lemma dict_get_elem k v d : Dict.get k d = Some v -> (k, v) ∈ d.
Proof.
  induction d as [|[k' v'] d IH]; simpl; [discriminate|].
  destruct (String.eqb k k') eqn:E.
  - apply String.eqb_eq in E. subst. intros [= ->]. apply list_elem_of_here.
  - intros H. apply list_elem_of_further. auto.
Qed.

Lemma dict_set_fresh k v d : k ∉ Dict.keys d -> Dict.set k v d = d ++ [(k, v)].
Proof.
  induction d as [|[k' v'] d IH]; simpl; auto.
  rewrite not_elem_of_cons. intros [Hne Hn].
  destruct (String.eqb k k') eqn:E.
  - apply String.eqb_eq in E. congruence.
  - now rewrite IH.
Qed.

Lemma dict_keys_set k v d :
  Dict.keys (Dict.set k v d)
  = match Dict.get k d with Some _ => Dict.keys d | None => Dict.keys d ++ [k] end.
Proof.
  induction d as [|[k' v'] d IH]; simpl; auto.
  destruct (String.eqb k k') eqn:E; simpl.
  - apply String.eqb_eq in E. now subst.
  - rewrite IH. now destruct (Dict.get k d).
Qed.

(** Assignment keeps a dictionary a dictionary. *)
Lemma dict_wf_set k v d : Dict.wf d -> Dict.wf (Dict.set k v d).
Proof.
  unfold Dict.wf. intros Hwf. rewrite dict_keys_set.
  destruct (Dict.get k d) eqn:E; auto.
  apply dict_get_None in E.
  apply NoDup_app. repeat split; auto.
  - intros x Hx Hx'. apply list_elem_of_singleton in Hx'. now subst.
  - apply NoDup_singleton.
Qed.

Lemma dict_of_items_acc items : forall acc,
  NoDup (Dict.keys acc ++ Dict.keys items) ->
  fold_left (fun d kv => Dict.set (fst kv) (snd kv) d) items acc = acc ++ items.
Proof.
  induction items as [|[k v] items IH]; intros acc Hnd; simpl.
  - now rewrite app_nil_r.
  - simpl in Hnd. rewrite dict_set_fresh.
    + rewrite IH.
      * now rewrite <- app_assoc.
      * unfold Dict.keys in *. rewrite map_app. simpl.
        now rewrite <- app_assoc.
    + apply NoDup_app in Hnd as (_ & Hd & _). intros Hin.
      apply (Hd k Hin). apply list_elem_of_here.
Qed.

(** Rebuilding a dictionary from its own items gives it back. *)
Lemma dict_of_items_wf d : Dict.wf d -> Dict.of_items d = d.
Proof. intros Hwf. unfold Dict.of_items. now rewrite dict_of_items_acc. Qed.
End DictFacts.

(** ** MemoryHandler *)

Section MemoryFacts.
Variable w : World.

Lemma save_session_run k d st :
  save_session w k d st
  = (Ok tt,
     with_event (EvSession k (Entry d (now_isoformat w (ticks st))))
       (with_session (Dict.set k (Entry d (now_isoformat w (ticks st)))) (tick st))).
Proof. reflexivity. Qed.

Lemma save_persistent_run k d st :
  save_persistent w k d st
  = let e := Entry d (now_isoformat w (ticks st)) in
    match db_error w k e with
    | Some x => (Raise x, with_event (EvPersist k e (Raise x)) (tick st))
    | None => (Ok tt, with_event (EvPersist k e (Ok tt)) (with_db (insert k e) (tick st)))
    end.
Proof.
  unfold save_persistent, bind, datetime_now_isoformat, db_setitem_commit. simpl.
  now destruct (db_error w k _).
Qed.

Lemma session_after_call c st :
  session_memory (after_call w c st)
  = match c with
    | SaveSession k d =>
        Dict.set k (Entry d (now_isoformat w (ticks st))) (session_memory st)
    | ClearSession => []
    | _ => session_memory st
    end.
Proof.
  destruct c; simpl; try reflexivity.
  rewrite save_persistent_run. simpl. now destruct (db_error w key _).
Qed.

(** The session tier stays a dictionary whatever its clients call. *)
Lemma session_wf_after_calls cs : forall st,
  Dict.wf (session_memory st) -> Dict.wf (session_memory (after_calls w cs st)).
Proof.
  induction cs as [|c cs IH]; intros st Hwf; simpl; auto.
  apply IH. rewrite session_after_call.
  destruct c; auto using dict_wf_set. apply NoDup_nil_2.
Qed.

Lemma get_session_after_calls k cs : forall st,
  forallb (fun c => negb (writes_session k c)) cs = true ->
  forallb (fun c => negb (clears_session c)) cs = true ->
  get_session k (after_calls w cs st) = get_session k st.
Proof.
  induction cs as [|c cs IH]; intros st Hw Hc; simpl in *; auto.
  apply andb_true_iff in Hw as [Hw1 Hw2]. apply andb_true_iff in Hc as [Hc1 Hc2].
  rewrite IH by assumption.
  unfold get_session. rewrite session_after_call.
  destruct c; simpl in *; try reflexivity; try discriminate.
  apply negb_true_iff, String.eqb_neq in Hw1.
  rewrite dict_get_set_ne; congruence.
Qed.

Lemma get_session_absent_after_calls k cs : forall st,
  forallb (fun c => negb (writes_session k c)) cs = true ->
  Dict.get k (session_memory st) = None ->
  Dict.get k (session_memory (after_calls w cs st)) = None.
Proof.
  induction cs as [|c cs IH]; intros st Hw Hg; simpl in *; auto.
  apply andb_true_iff in Hw as [Hw1 Hw2].
  apply IH; auto. rewrite session_after_call.
  destruct c; simpl in *; try assumption; try reflexivity.
  apply negb_true_iff, String.eqb_neq in Hw1.
  rewrite dict_get_set_ne; congruence.
Qed.

(** C10. Session-tier round trip: after [save_session(k, v)], and as long as
    no call writes [k] again or clears the tier, [get_session(k)] returns [v];
    a key that was never written since the handler was created, or since the
    tier was cleared, reads as [None]. A stored [None] therefore reads like an
    absent key. *)
Theorem session_round_trip k v cs st durable fs :
  forallb (fun c => negb (writes_session k c)) cs = true ->
  (forallb (fun c => negb (clears_session c)) cs = true ->
   get_session k (after_calls w cs (after_call w (SaveSession k v) st)) = v)
  /\ get_session k (after_calls w cs (initial_state durable fs)) = VNone
  /\ get_session k (after_calls w cs (after_call w ClearSession st)) = VNone
  /\ get_session k (after_call w (SaveSession k VNone) st)
     = get_session k (after_call w ClearSession st).
Proof.
  intros Hw. repeat split.
  - intros Hc. rewrite get_session_after_calls by assumption.
    unfold get_session. rewrite session_after_call. now rewrite dict_get_set_eq.
  - unfold get_session.
    rewrite (get_session_absent_after_calls k cs (initial_state durable fs)); auto.
  - unfold get_session.
    rewrite (get_session_absent_after_calls k cs (after_call w ClearSession st)); auto.
  - unfold get_session. rewrite !session_after_call. now rewrite dict_get_set_eq.
Qed.

(** C8. Durable-tier round trip: when the store accepts the write,
    [save_persistent(k, v)] returns, and once it has returned
    [get_persistent(k)] is [v]. *)
Theorem persistent_round_trip k v st :
  (db_error w k (Entry v (now_isoformat w (ticks st))) = None ->
   exists st', save_persistent w k v st = (Ok tt, st'))
  /\ (forall st', save_persistent w k v st = (Ok tt, st') -> get_persistent k st' = v).
Proof.
  rewrite save_persistent_run. simpl. split.
  - intros ->. eauto.
  - intros st'. destruct (db_error w k _); [discriminate|].
    intros [= <-]. unfold get_persistent. simpl. now rewrite lookup_insert_eq.
Qed.

(** *** The recent sessions *)

Lemma leb_not_older a b : String.leb (ts b) (ts a) = true <-> not_older a b.
Proof. unfold not_older, String.le. symmetry. apply Is_true_true. Qed.

Lemma not_older_total a b : not_older a b \/ not_older b a.
Proof. unfold not_older. destruct (total String.le (ts b) (ts a)); auto. Qed.

Lemma not_older_trans a b c : not_older a b -> not_older b c -> not_older a c.
Proof. unfold not_older. intros H1 H2. now transitivity (ts b). Qed.

Lemma insert_desc_perm x l : insert_desc x l ≡ₚ x :: l.
Proof.
  induction l as [|y l IH]; simpl; [reflexivity|].
  destruct (String.leb _ _); [reflexivity|].
  rewrite IH. apply Permutation_swap.
Qed.

Lemma sorted_desc_perm l : sorted_desc l ≡ₚ l.
Proof.
  induction l as [|x l IH]; simpl; [reflexivity|].
  rewrite insert_desc_perm. now f_equiv.
Qed.

Lemma insert_desc_sorted x l :
  StronglySorted not_older l -> StronglySorted not_older (insert_desc x l).
Proof.
  induction 1 as [|y l Hs IH Hy]; simpl.
  - repeat constructor.
  - destruct (String.leb (timestamp (snd y)) (timestamp (snd x))) eqn:E.
    + apply (leb_not_older x y) in E. constructor; [now constructor|].
      constructor; [assumption|].
      eapply Forall_impl; [exact Hy|]. intros z Hz. eauto using not_older_trans.
    + constructor; [assumption|].
      rewrite insert_desc_perm. constructor; [|assumption].
      destruct (not_older_total y x) as [?|H']; [assumption|].
      apply leb_not_older in H'. unfold ts in H'. congruence.
Qed.

Lemma sorted_desc_sorted l : StronglySorted not_older (sorted_desc l).
Proof.
  induction l as [|x l IH]; simpl; [constructor | now apply insert_desc_sorted].
Qed.

Lemma sorted_desc_keys l : Dict.wf l -> Dict.wf (sorted_desc l).
Proof.
  unfold Dict.wf, Dict.keys. intros H. now rewrite (sorted_desc_perm l).
Qed.

Lemma take_wf {A : Type} n (l : list (string * A)) : Dict.wf l -> Dict.wf (take n l).
Proof.
  unfold Dict.wf, Dict.keys. rewrite <- (take_drop n l) at 1.
  rewrite map_app. now intros (? & _)%NoDup_app.
Qed.

(** C7, for a count that is not negative. [list_recent_sessions(n)] returns
    [min(n, size)] items of the session tier, hence at most [n]; every
    returned item is not older than any item left out; and the returned items
    come in order of non-increasing timestamp. *)
Theorem list_recent_sessions_spec n st :
  Dict.wf (session_memory st) -> 0 <= n ->
  let r := list_recent_sessions n st in
  length r = Nat.min (Z.to_nat n) (length (session_memory st))
  /\ Z.of_nat (length r) <= n
  /\ (forall x, x ∈ r -> x ∈ session_memory st)
  /\ (forall x y, x ∈ r -> y ∈ session_memory st -> y ∉ r -> not_older x y)
  /\ StronglySorted not_older r.
Proof.
  intros Hwf Hn. unfold list_recent_sessions, slice_to.
  destruct (Z.leb_spec 0 n); [|lia].
  set (k := Z.to_nat n). set (l := sorted_desc (session_memory st)).
  rewrite dict_of_items_wf by (apply take_wf, sorted_desc_keys, Hwf).
  assert (Hs : StronglySorted not_older (take k l ++ drop k l)).
  { rewrite take_drop. apply sorted_desc_sorted. }
  assert (Hlen : length (take k l) = Nat.min k (length (session_memory st))).
  { rewrite length_take. unfold l. now rewrite (sorted_desc_perm (session_memory st)). }
  simpl. repeat split.
  - exact Hlen.
  - rewrite Hlen. lia.
  - intros x Hx. rewrite <- (sorted_desc_perm (session_memory st)).
    fold l. rewrite <- (take_drop k l). apply elem_of_app. now left.
  - intros x y Hx Hy Hny.
    rewrite <- (sorted_desc_perm (session_memory st)) in Hy. fold l in Hy.
    rewrite <- (take_drop k l) in Hy. apply elem_of_app in Hy as [Hy|Hy]; [tauto|].
    eapply StronglySorted_app_1_elem_of; eauto.
  - eapply StronglySorted_app_1_l; eauto.
Qed.

End MemoryFacts.

(** ** LLMHandler: the hint heuristics *)

Lemma append_cons a s t : String a s +:+ t = String a (s +:+ t).
Proof. reflexivity. Qed.

Lemma prefix_spec n : forall h,
  String.prefix n h = true <-> exists post, h = n +:+ post.
Proof.
  induction n as [|a n IH]; intros h.
  - split; [intros _; exists h; reflexivity | intros _; now destruct h].
  - destruct h as [|b h]; simpl.
    + split; [discriminate | intros [post H]; discriminate].
    + destruct (ascii_dec a b) as [->|Hne].
      * rewrite IH. split; intros [post H]; exists post.
        -- rewrite append_cons. now f_equal.
        -- rewrite append_cons in H. now inversion H.
      * split; [discriminate |]. intros [post H].
        rewrite append_cons in H. inversion H. congruence.
Qed.

Lemma contains_spec n : forall h,
  contains n h = true <-> exists pre post, h = pre +:+ n +:+ post.
Proof.
  induction h as [|b h IH].
  - cbn [contains]. rewrite prefix_spec. split.
    + intros [post H]. exists EmptyString, post. exact H.
    + intros (pre & post & H). destruct pre; [eauto | discriminate].
  - cbn [contains]. rewrite orb_true_iff, prefix_spec, IH. split.
    + intros [[post H] | (pre & post & H)].
      * exists EmptyString, post. exact H.
      * exists (String b pre), post. rewrite append_cons. now f_equal.
    + intros (pre & post & H). destruct pre as [|c pre].
      * left. exists post. exact H.
      * right. rewrite append_cons in H. inversion H. eauto.
Qed.

Lemma lower_append a b : lower (a +:+ b) = lower a +:+ lower b.
Proof.
  induction a as [|c a IH]; [reflexivity|].
  rewrite append_cons. simpl. rewrite IH. reflexivity.
Qed.

Lemma lower_append_inv a : forall s b,
  lower s = a +:+ b -> exists a' b', s = a' +:+ b' /\ lower a' = a /\ lower b' = b.
Proof.
  induction a as [|c a IH]; intros s b H.
  - exists EmptyString, s. auto.
  - destruct s as [|d s]; [discriminate|].
    rewrite append_cons in H. simpl in H. inversion H as [[Hc Hs]].
    destruct (IH _ _ Hs) as (a' & b' & -> & <- & <-).
    exists (String d a'), b'. repeat split.
Qed.

(** The substring test on the lowered text is the case-insensitive occurrence. *)
Lemma contains_lower_occurs term text :
  contains term (lower text) = true <-> occurs term text.
Proof.
  rewrite contains_spec. unfold occurs. split.
  - intros (pre & post & H).
    apply lower_append_inv in H as (pre' & rest & -> & _ & H).
    apply lower_append_inv in H as (mid & post' & -> & H & _).
    eauto.
  - intros (pre & mid & post & -> & <-).
    exists (lower pre), (lower post). now rewrite !lower_append.
Qed.

Lemma if_decides (b : bool) (P : Prop) (yes no : string) :
  yes <> no -> (b = true <-> P) ->
  ((if b then yes else no) = yes <-> P) /\ ((if b then yes else no) = no <-> ~ P).
Proof.
  intros Hne H. destruct b; split; split.
  - intros _. now apply H.
  - reflexivity.
  - congruence.
  - intros HnP. exfalso. now apply HnP, H.
  - congruence.
  - intros HP. apply H in HP. discriminate.
  - intros _ HP. apply H in HP. discriminate.
  - reflexivity.
Qed.

Lemma any_contains_occurs terms text :
  existsb (fun x => contains x (lower text)) terms = true
  <-> Exists (fun x => occurs x text) terms.
Proof.
  rewrite existsb_exists, Exists_exists.
  split; intros (x & Hx & Hc); exists x; split;
    try (now apply list_elem_of_In); now apply contains_lower_occurs.
Qed.

(** ** LLMHandler: the expansion *)

Lemma expand_prompt_run h prompt st :
  expand_prompt h prompt st
  = match expansion h prompt with
    | Ok v => (Ok v, with_event (EvExpand prompt) st)
    | Raise e =>
        (Ok (fallback_expansion prompt),
         with_log (ERROR, "LLM processing error: " +:+ exn_msg e)
           (with_event (EvExpand prompt) st))
    end.
Proof.
  unfold expand_prompt, bind, try_except, emit, modify, lift. simpl.
  now destruct (expansion h prompt).
Qed.

Lemma expansion_shape h prompt v : expansion h prompt = Ok v -> is_expansion v.
Proof.
  unfold expansion, rbind.
  repeat match goal with
         | |- context [match ?x with Ok _ => _ | Raise _ => _ end] => destruct x
         end; try discriminate.
  intros [= <-]. unfold is_expansion. eauto.
Qed.

Lemma fallback_shape prompt : is_expansion (fallback_expansion prompt).
Proof. unfold is_expansion, fallback_expansion. eauto. Qed.

(** C2. [expand_prompt] returns on every prompt, and what it returns is a
    mapping with the keys expanded_prompt, style_hints and technical_params.
    When the body of its [try] fails, which it does whenever either call of the
    model raises, the result is the original prompt with empty hints and empty
    parameters, and the failure is logged. *)
Theorem expand_prompt_fails_open h prompt st :
  exists v st',
    expand_prompt h prompt st = (Ok v, st')
    /\ is_expansion v
    /\ (forall e, expansion h prompt = Raise e ->
          v = VDict [ ("expanded_prompt", VStr prompt);
                      ("style_hints", VDict []);
                      ("technical_params", VStr "") ]
          /\ log st' = log st ++ [(ERROR, "LLM processing error: " +:+ exn_msg e)])
    /\ (forall e, llm h (creative_request prompt) = Raise e ->
          expansion h prompt = Raise e)
    /\ (forall response text e,
          llm h (creative_request prompt) = Ok response ->
          first_choice_text response = Ok (VStr text) ->
          llm h (technical_request (text +:+ nl)) = Raise e ->
          expansion h prompt = Raise e).
Proof.
  rewrite expand_prompt_run.
  destruct (expansion h prompt) as [v|e0] eqn:E; do 2 eexists;
    (split; [reflexivity|]); split.
  - eapply expansion_shape; eauto.
  - split; [discriminate|].
    unfold expansion, rbind in *. split.
    + intros e He. rewrite He in E. discriminate.
    + intros response text e H1 H2 H3. rewrite H1, H2 in E. simpl in E.
      rewrite H3 in E. discriminate.
  - apply fallback_shape.
  - split; [intros e [= <-]; split; reflexivity|].
    unfold expansion, rbind in *. split.
    + intros e He. now rewrite He in E.
    + intros response text e H1 H2 H3. rewrite H1, H2 in E. simpl in E.
      now rewrite H3 in E.
Qed.

(** C9. The two classifiers are functions of the text alone, defined on every
    text, and decide by case-insensitive occurrence: the primary light is
    natural exactly when sunlight occurs and artificial otherwise; the mood is
    bright exactly when bright, sunny or daylight occurs and dark otherwise; the
    perspective is wide exactly when panorama, wide or vast occurs and close
    otherwise; the focus is foreground exactly when foreground occurs and
    background otherwise. *)
Theorem hint_extraction_spec text :
  exists primary_light mood perspective focus,
    _extract_lighting text
    = VDict [("primary_light", VStr primary_light); ("mood", VStr mood)]
    /\ _extract_composition text
      = VDict [("perspective", VStr perspective); ("focus", VStr focus)]
    /\ (primary_light = "natural" <-> occurs "sunlight" text)
    /\ (primary_light = "artificial" <-> ~ occurs "sunlight" text)
    /\ (mood = "bright"
        <-> Exists (fun x => occurs x text) ["bright"; "sunny"; "daylight"])
    /\ (mood = "dark"
        <-> ~ Exists (fun x => occurs x text) ["bright"; "sunny"; "daylight"])
    /\ (perspective = "wide"
        <-> Exists (fun x => occurs x text) ["panorama"; "wide"; "vast"])
    /\ (perspective = "close"
        <-> ~ Exists (fun x => occurs x text) ["panorama"; "wide"; "vast"])
    /\ (focus = "foreground" <-> occurs "foreground" text)
    /\ (focus = "background" <-> ~ occurs "foreground" text).
Proof.
  do 4 eexists. split; [reflexivity|]. split; [reflexivity|].
  destruct (if_decides _ _ "natural" "artificial" ltac:(discriminate)
              (contains_lower_occurs "sunlight" text)) as [H1 H1'].
  destruct (if_decides _ _ "bright" "dark" ltac:(discriminate)
              (any_contains_occurs ["bright"; "sunny"; "daylight"] text)) as [H2 H2'].
  destruct (if_decides _ _ "wide" "close" ltac:(discriminate)
              (any_contains_occurs ["panorama"; "wide"; "vast"] text)) as [H3 H3'].
  destruct (if_decides _ _ "foreground" "background" ltac:(discriminate)
              (contains_lower_occurs "foreground" text)) as [H4 H4'].
  repeat split; first [apply H1 | apply H1' | apply H2 | apply H2' | apply H3
                      | apply H3' | apply H4 | apply H4'].
Qed.

(** ** Pipeline: the artifact store *)

Section PipelineFacts.
Variable w : World.

Lemma mkstemp_inner_spec suffix attempts : forall st r st',
  mkstemp_inner w suffix attempts st = (r, st') ->
  same_tiers st st' /\ log st' = log st
  /\ match r with
     | Ok path =>
         (exists n, path = candidate w suffix n)
         /\ files st !! path = None
         /\ open_error w path = None
         /\ files st' = <[path := []]> (files st)
     | Raise _ => files st' = files st
     end.
Proof.
  induction attempts as [|attempts IH]; intros st r st' H; simpl in H.
  - inversion H; subst. unfold same_tiers. auto 10.
  - destruct (files st !! candidate w suffix (draws st)) eqn:Hf.
    + apply IH in H. exact H.
    + destruct (open_error w (candidate w suffix (draws st))) eqn:Ho;
        inversion H; subst; unfold same_tiers; simpl; eauto 10.
Qed.

Lemma TMP_MAX_succ : TMP_MAX = S (Nat.pred TMP_MAX).
Proof. unfold TMP_MAX. lia. Qed.

Lemma mkstemp_inner_first suffix attempts st :
  files st !! candidate w suffix (draws st) = None ->
  open_error w (candidate w suffix (draws st)) = None ->
  mkstemp_inner w suffix (S attempts) st
  = (Ok (candidate w suffix (draws st)),
     with_files (insert (candidate w suffix (draws st)) []) (draw st)).
Proof. intros Hf Ho. simpl. now rewrite Hf, Ho. Qed.

Lemma append_assoc a b c : (a +:+ b) +:+ c = a +:+ b +:+ c.
Proof.
  induction a as [|x a IH]; [reflexivity|].
  rewrite !append_cons. now rewrite IH.
Qed.

Lemma candidate_suffix suffix n : has_suffix suffix (candidate w suffix n).
Proof.
  exists (tempdir w +:+ "/tmp" +:+ random_name w n). unfold candidate.
  now rewrite !append_assoc.
Qed.

(** One run of an artifact-store operation, step by step. *)
Lemma save_temp_run suffix what payload st :
  save_temp w suffix what payload st
  = let failed e st1 :=
      (Raise e, with_log (ERROR, "Error saving " +:+ what +:+ ": " +:+ exn_msg e) st1) in
    match mkstemp_inner w suffix TMP_MAX st with
    | (Raise e, st1) => failed e st1
    | (Ok tmp, st1) =>
        match payload_bytes w payload with
        | Raise e => failed e st1
        | Ok b =>
            match write_error w tmp b with
            | Some e => failed e st1
            | None => (Ok tmp, with_files (insert tmp b) st1)
            end
        end
    end.
Proof.
  unfold save_temp, try_except, bind, NamedTemporaryFile.
  destruct (mkstemp_inner w suffix TMP_MAX st) as [[tmp|e] st1]; [|reflexivity].
  destruct payload; simpl; try reflexivity.
  - unfold decode_if_str, bind, lift, ret.
    destruct (b64decode w s) as [b|e]; [|reflexivity].
    simpl. now destruct (write_error w tmp b).
  - now destruct (write_error w tmp b).
Qed.

Lemma save_temp_spec suffix what payload st r st' :
  save_temp w suffix what payload st = (r, st') ->
  same_tiers st st'
  /\ match r with
     | Ok path =>
         log st' = log st
         /\ files st !! path = None
         /\ has_suffix suffix path
         /\ open_error w path = None
         /\ exists b, payload_bytes w payload = Ok b
                      /\ write_error w path b = None
                      /\ files st' = <[path := b]> (files st)
     | Raise e =>
         log st' = log st ++ [(ERROR, "Error saving " +:+ what +:+ ": " +:+ exn_msg e)]
     end.
Proof.
  rewrite save_temp_run. cbv zeta.
  destruct (mkstemp_inner w suffix TMP_MAX st) as [[tmp|e] st1] eqn:E1;
    apply mkstemp_inner_spec in E1 as ((Hs & Hd & Ht & Hr) & Hl & H1).
  2:{ intros [= <- <-]. unfold same_tiers. simpl. repeat split; congruence. }
  destruct H1 as ((n & ->) & Hfresh & Hopen & Hf).
  destruct (payload_bytes w payload) as [b|e] eqn:Hb.
  2:{ intros [= <- <-]. unfold same_tiers. simpl. repeat split; congruence. }
  destruct (write_error w (candidate w suffix n) b) eqn:Hw.
  { intros [= <- <-]. unfold same_tiers. simpl. repeat split; congruence. }
  intros [= <- <-]. unfold same_tiers. simpl.
  repeat split; try congruence; auto using candidate_suffix.
  exists b. repeat split; auto. rewrite Hf. apply insert_insert_eq.
Qed.

Lemma recorded_spec suffix m st :
  recorded suffix m st
  = (fst (m st), with_event (EvStore suffix (fst (m st))) (snd (m st))).
Proof. unfold recorded. now destruct (m st). Qed.

Lemma stores_save_temp suffix what :
  stores w suffix (fun payload => recorded suffix (save_temp w suffix what payload)).
Proof.
  unfold stores. split; [|split].
  - intros payload st path st' H. rewrite recorded_spec in H.
    destruct (save_temp w suffix what payload st) as [r st1] eqn:E.
    apply save_temp_spec in E as [_ E]. simpl in H. inversion H; subst.
    destruct E as (_ & ? & ? & ? & b & ? & ? & ?).
    repeat split; auto. exists b. simpl. auto.
  - intros payload st e H. rewrite recorded_spec, save_temp_run. cbv zeta.
    destruct (mkstemp_inner w suffix TMP_MAX st) as [[tmp|e0] st1]; simpl; eauto.
    rewrite H. simpl. eauto.
  - intros payload st b Hb Hf Ho Hw.
    rewrite recorded_spec, save_temp_run. cbv zeta. rewrite TMP_MAX_succ.
    rewrite mkstemp_inner_first by assumption.
    rewrite Hb, Hw. reflexivity.
Qed.

(** C5. Both artifact-store operations meet the contract [stores]: the image
    operation with the extension .png, the model operation with .glb. A text
    payload is written base64-decoded and a binary payload as it is, to a name
    that did not exist; the name is returned; a failure to decode, to create or
    to write makes the operation raise. *)
Theorem artifact_store_spec :
  stores w ".png" (_save_temp_image w) /\ stores w ".glb" (_save_temp_model w).
Proof. split; apply stores_save_temp. Qed.

(** *** Runs of [process] *)

Lemma bind_inv {A B : Type} (m : M A) (f : A -> M B) st r st' :
  bind m f st = (r, st') ->
  (exists a st1, m st = (Ok a, st1) /\ f a st1 = (r, st'))
  \/ (exists e, m st = (Raise e, st') /\ r = Raise e).
Proof.
  unfold bind. destruct (m st) as [[a|e] st1]; [eauto|].
  intros [= <- <-]. eauto.
Qed.

Lemma getitem_str_dict v k x :
  getitem v (IStr k) = Ok x -> exists d, v = VDict d /\ Dict.get k d = Some x.
Proof.
  destruct v; simpl; try discriminate.
  destruct (Dict.get k d) eqn:E; [|discriminate]. intros [= ->]. eauto.
Qed.

Lemma reached_start st : reached st st [].
Proof. unfold reached. now rewrite app_nil_r. Qed.

Lemma session_writes_snoc evs ev :
  session_writes (evs ++ [ev])
  = session_writes evs ++ match ev with EvSession k e => [(k, e)] | _ => [] end.
Proof. unfold session_writes. rewrite flat_map_app. simpl. now rewrite app_nil_r. Qed.

Lemma replay_snoc ws k e d : replay (ws ++ [(k, e)]) d = Dict.set k e (replay ws d).
Proof. unfold replay. now rewrite fold_left_app. Qed.

Lemma reached_event st st1 evs ev :
  reached st st1 evs ->
  match ev with EvSession _ _ => False | _ => True end ->
  reached st (with_event ev st1) (evs ++ [ev]).
Proof.
  intros (Ht & Hs & Hd) Hev. unfold reached. simpl.
  rewrite Ht, Hd, session_writes_snoc, app_assoc.
  repeat split; auto. destruct ev; try contradiction; now rewrite app_nil_r.
Qed.

Lemma step_save_session st st1 evs k d r st2 :
  reached st st1 evs ->
  save_session w k d st1 = (r, st2) ->
  r = Ok tt
  /\ reached st st2 (evs ++ [EvSession k (Entry d (now_isoformat w (ticks st1)))]).
Proof.
  intros (Ht & Hs & Hd). rewrite save_session_run. intros [= <- <-].
  split; [reflexivity|]. unfold reached. simpl.
  rewrite Ht, Hs, Hd, session_writes_snoc, replay_snoc, app_assoc. auto.
Qed.

Lemma step_stub_call st st1 evs stub app_id rq sid r st2 :
  reached st st1 evs ->
  stub_call stub app_id rq sid st1 = (r, st2) ->
  r = call stub app_id rq sid /\ reached st st2 (evs ++ [EvCall app_id rq r]).
Proof.
  intros Hr. unfold stub_call. intros [= <- <-].
  split; [reflexivity|]. now apply reached_event.
Qed.

Lemma step_subscript st1 v k r st2 :
  subscript v k st1 = (r, st2) -> r = getitem v (IStr k) /\ st2 = st1.
Proof. unfold subscript, lift. now intros [= <- <-]. Qed.

Lemma step_lift {A : Type} (x : res A) st1 r st2 :
  lift x st1 = (r, st2) -> r = x /\ st2 = st1.
Proof. unfold lift. now intros [= <- <-]. Qed.

Lemma step_save_temp st st1 evs suffix what payload r st2 :
  reached st st1 evs ->
  recorded suffix (save_temp w suffix what payload) st1 = (r, st2) ->
  reached st st2 (evs ++ [EvStore suffix r]).
Proof.
  intros (Ht & Hs & Hd). rewrite recorded_spec.
  destruct (save_temp w suffix what payload st1) as [r0 st0] eqn:E.
  apply save_temp_spec in E as [(Hs0 & Hd0 & _ & Hr0) _]. simpl.
  intros [= <- <-]. unfold reached. simpl.
  rewrite Hr0, Hs0, Hd0, Ht, Hs, Hd, session_writes_snoc, app_assoc, app_nil_r. auto.
Qed.

Lemma step_expand st st1 evs p prompt r st2 :
  reached st st1 evs ->
  llm_expand_prompt p prompt st1 = (r, st2) ->
  (p_llm p = None /\ st2 = st1
   /\ r = Raise (Exn "AttributeError"
                    "'NoneType' object has no attribute 'expand_prompt'"))
  \/ (exists h v, p_llm p = Some h /\ r = Ok v /\ is_expansion v
                  /\ (expansion h prompt = Ok v
                      \/ (exists e, expansion h prompt = Raise e)
                         /\ v = fallback_expansion prompt)
                  /\ reached st st2 (evs ++ [EvExpand prompt])).
Proof.
  intros Hr. unfold llm_expand_prompt. destruct (p_llm p) as [h|].
  - rewrite expand_prompt_run. intros H. right. exists h.
    destruct (expansion h prompt) as [v|e] eqn:E; inversion H; subst.
    + exists v. split; [reflexivity|]. split; [reflexivity|].
      split; [eapply expansion_shape; eauto|]. split; [now left|].
      now apply (reached_event st st1 evs (EvExpand prompt)).
    + exists (fallback_expansion prompt). split; [reflexivity|].
      split; [reflexivity|]. split; [apply fallback_shape|].
      split; [right; eauto|].
      apply (reached_event st _ evs (EvExpand prompt)); [|exact I].
      destruct Hr as (? & ? & ?). unfold reached. simpl. auto.
  - intros [= <- <-]. left. auto.
Qed.

Lemma step_save_persistent st st1 evs k d r st2 :
  reached st st1 evs ->
  save_persistent w k d st1 = (r, st2) ->
  let e := Entry d (now_isoformat w (ticks st1)) in
  trace st2 = trace st ++ evs ++ [EvPersist k e r]
  /\ session_memory st2 = replay (session_writes evs) (session_memory st)
  /\ match r with
     | Ok _ => db st2 = <[k := e]> (db st)
     | Raise _ => db st2 = db st
     end.
Proof.
  intros (Ht & Hs & Hd). rewrite save_persistent_run. cbv zeta.
  destruct (db_error w k _); intros [= <- <-]; simpl;
    rewrite Ht, Hs, Hd, app_assoc; auto.
Qed.

Ltac halted R :=
  let Ht := fresh in let Hs := fresh in let Hd := fresh in
  destruct R as (Ht & Hs & Hd);
  eexists; split; [exact Ht|];
  split; [eexists; reflexivity|];
  split; [exact Hs|];
  split; [exact Hd|];
  simpl; repeat constructor.

Lemma process_body_run p prompt stub sid st r st' :
  process_body w p prompt stub sid st = (r, st') ->
  exists evs,
    trace st' = trace st ++ evs
    /\ map step_of evs `prefix_of` plan p sid
    /\ session_memory st' = replay (session_writes evs) (session_memory st)
    /\ match r with
       | Raise e => db st' = db st /\ Forall (raised_with e) evs
       | Ok v =>
           map step_of evs = plan p sid
           /\ Forall (fun ev => ~ raised ev) evs
           /\ exists expanded img_path model_path prompt_rec image_rec model_rec
                     t1 t2 t3 t4,
               is_expansion expanded
               /\ v = success_result expanded img_path model_path sid
               /\ session_writes evs
                  = [ (prompt_key sid, Entry prompt_rec t1);
                      (image_key sid, Entry image_rec t2);
                      (model_key sid, Entry model_rec t3) ]
               /\ db st'
                  = <[creation_key sid :=
                        Entry (creation_record prompt_rec image_rec model_rec) t4]>
                      (db st)
       end.
Proof.
  intros H. unfold process_body in H. pose proof (reached_start st) as R.
  (* Expand *)
  apply bind_inv in H as [(expanded & st1 & E & H) | (e & E & ->)];
    eapply step_expand in E as [(_ & -> & Hr) | (h & v & _ & Hr & Hv & _ & R1)];
    eauto; try discriminate; [| halted R].
  injection Hr as <-. clear R.
  apply bind_inv in H as [([] & st2 & E & H) | (e & E & ->)];
    eapply step_save_session in E as [Hr R2]; eauto; try discriminate.
  clear R1 Hr.
  (* GenerateImage *)
  apply bind_inv in H as [(expanded_prompt & st3 & E & H) | (e & E & ->)];
    apply step_subscript in E as [_ ->]; [| halted R2].
  apply bind_inv in H as [(img_result & st3 & E & H) | (e & E & ->)];
    eapply step_stub_call in E as [Hc1 R3]; eauto; [| halted R3].
  clear R2.
  apply bind_inv in H as [(image & st4 & E & H) | (e & E & ->)];
    apply step_subscript in E as [_ ->]; [| halted R3].
  apply bind_inv in H as [(img_path & st4 & E & H) | (e & E & ->)];
    (eapply step_save_temp in E; [|eassumption]); [| halted E].
  clear R3. rename E into R4.
  apply bind_inv in H as [(style_hints & st5 & E & H) | (e & E & ->)];
    apply step_subscript in E as [Hsh ->]; [| halted R4].
  apply bind_inv in H as [([] & st5 & E & H) | (e & E & ->)];
    eapply step_save_session in E as [Hr R5]; eauto; try discriminate.
  clear R4 Hr.
  (* GenerateModel *)
  apply bind_inv in H as [(technical_params & st6 & E & H) | (e & E & ->)];
    apply step_subscript in E as [_ ->]; [| halted R5].
  apply bind_inv in H as [(model_result & st6 & E & H) | (e & E & ->)];
    eapply step_stub_call in E as [Hc2 R6]; eauto; [| halted R6].
  clear R5.
  apply bind_inv in H as [(model & st7 & E & H) | (e & E & ->)];
    apply step_subscript in E as [_ ->]; [| halted R6].
  apply bind_inv in H as [(model_path & st7 & E & H) | (e & E & ->)];
    (eapply step_save_temp in E; [|eassumption]); [| halted E].
  clear R6. rename E into R7.
  apply bind_inv in H as [(metadata & st8 & E & H) | (e & E & ->)];
    apply step_lift in E as [Hm ->]; [| halted R7].
  apply bind_inv in H as [([] & st8 & E & H) | (e & E & ->)];
    eapply step_save_session in E as [Hr R8]; eauto; try discriminate.
  clear R7 Hr.
  (* Persist *)
  apply bind_inv in H as [(style_hints' & st9 & E & H) | (e & E & ->)];
    apply step_subscript in E as [Hs' ->]; [| halted R8].
  apply bind_inv in H as [(metadata' & st9 & E & H) | (e & E & ->)];
    apply step_lift in E as [Hm' ->]; [| halted R8].
  apply bind_inv in H as [([] & st9 & E & H) | (e & E & ->)];
    eapply step_save_persistent in E as (Ht & Hs & Hd); eauto.
  2:{ eexists. split; [exact Ht|]. split; [exists []; reflexivity|].
      split; [rewrite Hs; reflexivity|]. split; [exact Hd|].
      simpl. repeat constructor. }
  unfold ret in H. injection H as <- <-.
  assert (style_hints' = style_hints) as -> by congruence.
  assert (metadata' = metadata) as -> by congruence.
  eexists. split; [exact Ht|]. split; [exists []; reflexivity|].
  split; [rewrite Hs; reflexivity|].
  split; [reflexivity|].
  split; [repeat constructor; simpl; auto|].
  do 10 eexists. split; [exact Hv|].
  split; [reflexivity|]. split; [reflexivity|]. exact Hd.
Qed.

(** [process] wraps the body: a value of the body is returned as it is, an
    exception becomes the error result, after one log record. *)
Lemma process_run p prompt stub sid st r st' :
  process w p prompt stub sid st = (r, st') ->
  exists rb stb,
    process_body w p prompt stub sid st = (rb, stb)
    /\ match rb with
       | Ok v => r = Ok v /\ st' = stb
       | Raise e =>
           r = Ok (error_result e sid)
           /\ st' = with_log (ERROR, "Pipeline error: " +:+ exn_msg e) stb
       end.
Proof.
  unfold process, try_except.
  destruct (process_body w p prompt stub sid st) as [[v|e] stb].
  - intros [= <- <-]. exists (Ok v), stb. auto.
  - unfold bind, logging_error, modify, ret. simpl. intros [= <- <-].
    exists (Raise e), stb. auto.
Qed.

Lemma success_not_error expanded img_path model_path sid :
  ~ is_error_result (success_result expanded img_path model_path sid).
Proof. intros (e & sid' & H). discriminate H. Qed.

Lemma keys_distinct sid :
  NoDup [prompt_key sid; image_key sid; model_key sid].
Proof.
  unfold prompt_key, image_key, model_key.
  repeat (apply NoDup_cons_2; [rewrite ?not_elem_of_cons; repeat split;
                               try apply not_elem_of_nil; discriminate|]).
  apply NoDup_nil_2.
Qed.

Lemma replay_get_other k ws : forall d,
  k ∉ map fst ws -> Dict.get k (replay ws d) = Dict.get k d.
Proof.
  induction ws as [|[k' e'] ws IH]; intros d Hk; [reflexivity|].
  simpl in Hk. apply not_elem_of_cons in Hk as [Hne Hk].
  change (replay ((k', e') :: ws) d) with (replay ws (Dict.set k' e' d)).
  rewrite IH by assumption. apply dict_get_set_ne. congruence.
Qed.

(** Session writes to distinct keys all remain readable. *)
Lemma replay_get k e ws : forall d,
  NoDup (map fst ws) -> (k, e) ∈ ws -> Dict.get k (replay ws d) = Some e.
Proof.
  induction ws as [|[k' e'] ws IH]; intros d Hnd Hin.
  - now apply elem_of_nil in Hin.
  - simpl in Hnd. apply NoDup_cons in Hnd as [Hk' Hnd].
    change (replay ((k', e') :: ws) d) with (replay ws (Dict.set k' e' d)).
    apply elem_of_cons in Hin as [[= -> ->] | Hin].
    + rewrite replay_get_other by assumption. apply dict_get_set_eq.
    + now apply IH.
Qed.

Lemma session_keys_steps evs :
  map fst (session_writes evs) = flat_map session_key_of (map step_of evs).
Proof.
  induction evs as [|ev evs IH]; [reflexivity|].
  unfold session_writes in *. simpl. rewrite map_app, IH. now destruct ev.
Qed.

Lemma flat_map_prefix {A B : Type} (f : A -> list B) (l1 l2 : list A) :
  l1 `prefix_of` l2 -> flat_map f l1 `prefix_of` flat_map f l2.
Proof. intros [k ->]. rewrite flat_map_app. now eexists. Qed.

(** In a history that follows the plan, the session records are written in
    the order prompt, image, model. *)
Lemma session_keys_prefix p sid evs :
  map step_of evs `prefix_of` plan p sid ->
  map fst (session_writes evs)
    `prefix_of` [prompt_key sid; image_key sid; model_key sid].
Proof.
  intros H. rewrite session_keys_steps.
  apply (flat_map_prefix session_key_of) in H. exact H.
Qed.

Lemma prefix_NoDup {A : Type} (l1 l2 : list A) :
  l1 `prefix_of` l2 -> NoDup l2 -> NoDup l1.
Proof. intros [k ->] H. now apply NoDup_app in H as (? & _). Qed.

Lemma session_writes_remain p sid evs d k e :
  map step_of evs `prefix_of` plan p sid ->
  (k, e) ∈ session_writes evs ->
  Dict.get k (replay (session_writes evs) d) = Some e.
Proof.
  intros Hp Hin. apply replay_get; [|assumption].
  eapply prefix_NoDup; [eapply session_keys_prefix; eauto | apply keys_distinct].
Qed.

(** A service is called only once the prompt record has been written. *)
Lemma call_after_prompt_record p sid evs app_id rq out :
  map step_of evs `prefix_of` plan p sid ->
  EvCall app_id rq out ∈ evs ->
  exists e, (prompt_key sid, e) ∈ session_writes evs.
Proof.
  intros Hp Hin. unfold plan in Hp.
  destruct evs as [|e0 evs]; [now apply elem_of_nil in Hin|].
  simpl in Hp. apply prefix_cons_inv_1 in Hp as H0.
  apply prefix_cons_inv_2 in Hp.
  apply elem_of_cons in Hin as [<- | Hin]; [discriminate H0|].
  destruct evs as [|e1 evs]; [now apply elem_of_nil in Hin|].
  simpl in Hp. apply prefix_cons_inv_1 in Hp as H1.
  destruct e1; try discriminate H1. simpl in H1. injection H1 as ->.
  exists e. simpl. destruct e0; simpl; rewrite ?elem_of_cons; auto.
Qed.

Lemma failed_is_raised e ev : failed_with e ev -> raised ev.
Proof. destruct ev as [| | ? ? [] | ? [] | ? ? []]; simpl; auto. Qed.

Lemma failed_raised_with e e' ev : failed_with e ev -> raised_with e' ev -> e = e'.
Proof. destruct ev as [| | ? ? [] | ? [] | ? ? []]; simpl; try tauto; congruence. Qed.

(** Every run of [process], summed up: what it recorded, and how it ended. *)
Lemma process_outcome p prompt stub sid st r st' :
  process w p prompt stub sid st = (r, st') ->
  exists evs,
    trace st' = trace st ++ evs
    /\ map step_of evs `prefix_of` plan p sid
    /\ session_memory st' = replay (session_writes evs) (session_memory st)
    /\ ((exists e stb,
           process_body w p prompt stub sid st = (Raise e, stb)
           /\ r = Ok (error_result e sid)
           /\ log st' = log stb ++ [(ERROR, "Pipeline error: " +:+ exn_msg e)]
           /\ db st' = db st
           /\ Forall (raised_with e) evs)
        \/ (exists expanded img_path model_path prompt_rec image_rec model_rec
                  t1 t2 t3 t4,
              is_expansion expanded
              /\ r = Ok (success_result expanded img_path model_path sid)
              /\ process_body w p prompt stub sid st = (r, st')
              /\ map step_of evs = plan p sid
              /\ Forall (fun ev => ~ raised ev) evs
              /\ session_writes evs
                 = [ (prompt_key sid, Entry prompt_rec t1);
                     (image_key sid, Entry image_rec t2);
                     (model_key sid, Entry model_rec t3) ]
              /\ db st'
                 = <[creation_key sid :=
                       Entry (creation_record prompt_rec image_rec model_rec) t4]>
                     (db st))).
Proof.
  intros H. apply process_run in H as (rb & stb & Hb & H).
  pose proof (process_body_run _ _ _ _ _ _ _ Hb) as (evs & Ht & Hp & Hs & Hr).
  exists evs. destruct rb as [v|e].
  - destruct H as [-> ->]. repeat (split; [assumption|]). right.
    destruct Hr as (Hplan & Hok & x1 & x2 & x3 & x4 & x5 & x6 & t1 & t2 & t3 & t4
                    & Hexp & -> & Hw & Hd).
    exists x1, x2, x3, x4, x5, x6, t1, t2, t3, t4. auto 10.
  - destruct H as [-> ->]. simpl. repeat (split; [assumption|]). left.
    destruct Hr as [Hd Hf]. exists e, stb. auto 10.
Qed.

(** C4. A run records its steps in the order of the plan: expansion and the
    prompt record, image call, image artifact and the image record, model
    call, model artifact and the model record, then the durable write; so the
    session records are written in the order prompt, image, model, each before
    the next stage acts. A run that ends in success has gone through the whole
    plan, and its three session records and its durable record exist when
    [process] returns. *)
Theorem stage_order p prompt stub sid st r st' :
  process w p prompt stub sid st = (r, st') ->
  exists evs,
    trace st' = trace st ++ evs
    /\ map step_of evs `prefix_of` plan p sid
    /\ map fst (session_writes evs)
         `prefix_of` [prompt_key sid; image_key sid; model_key sid]
    /\ (forall v, r = Ok v -> is_success_result v sid ->
          map step_of evs = plan p sid
          /\ is_Some (Dict.get (prompt_key sid) (session_memory st'))
          /\ is_Some (Dict.get (image_key sid) (session_memory st'))
          /\ is_Some (Dict.get (model_key sid) (session_memory st'))
          /\ is_Some (db st' !! creation_key sid)).
Proof.
  intros H. apply process_outcome in H as (evs & Ht & Hp & Hs & Hr).
  exists evs. split; [assumption|]. split; [assumption|].
  split; [eapply session_keys_prefix; eauto|].
  intros v -> (x & ip & mp & _ & Hv).
  destruct Hr as [(e & stb & _ & [= ->] & _) | Hr]; [discriminate Hv|].
  destruct Hr as (x1 & x2 & x3 & x4 & x5 & x6 & t1 & t2 & t3 & t4
                  & _ & _ & _ & Hplan & _ & Hw & Hd).
  split; [assumption|]. rewrite Hs, Hd.
  repeat split;
    try (eexists; eapply session_writes_remain; [eassumption|];
         rewrite Hw, !elem_of_cons; auto).
  rewrite lookup_insert_eq. eauto.
Qed.

(** *** Runs of [process], read off the environment *)

Lemma mkstemp_inner_first_free suffix attempts : forall st r st',
  mkstemp_inner w suffix attempts st = (r, st') ->
  match first_free w suffix (files st) attempts (draws st) with
  | None =>
      r = Raise (Exn "FileExistsError" "[Errno 17] No usable temporary file name found")
  | Some m =>
      draws st' = S m
      /\ match open_error w (candidate w suffix m) with
         | Some e => r = Raise e
         | None =>
             r = Ok (candidate w suffix m)
             /\ files st' = <[candidate w suffix m := []]> (files st)
         end
  end.
Proof.
  induction attempts as [|attempts IH]; intros st r st' H; simpl in H |- *.
  - now injection H as <- _.
  - destruct (files st !! candidate w suffix (draws st)) eqn:Hf.
    + apply IH in H. exact H.
    + destruct (open_error w (candidate w suffix (draws st))) eqn:Ho;
        injection H as <- <-; simpl; auto.
Qed.

(** An artifact-store operation does what the environment lets it do. *)
Lemma store_run suffix what payload s r s' :
  recorded suffix (save_temp w suffix what payload) s = (r, s') ->
  session_memory s' = session_memory s /\ db s' = db s /\ ticks s' = ticks s
  /\ (forall e, store_fails w suffix payload (files s) (draws s) e -> r = Raise e)
  /\ (forall m path b,
        store_succeeds w suffix payload (files s) (draws s) m path b ->
        r = Ok path /\ files s' = <[path := b]> (files s) /\ draws s' = S m).
Proof.
  rewrite recorded_spec.
  destruct (save_temp w suffix what payload s) as [r0 s0] eqn:E. simpl.
  intros [= <- <-].
  pose proof (save_temp_spec _ _ _ _ _ _ E) as [(Hs & Hd & Ht & _) _].
  simpl. split; [exact Hs|]. split; [exact Hd|]. split; [exact Ht|].
  rewrite save_temp_run in E. cbv zeta in E.
  destruct (mkstemp_inner w suffix TMP_MAX s) as [r1 s1] eqn:E1.
  apply mkstemp_inner_first_free in E1. unfold store_fails, store_succeeds.
  destruct (first_free w suffix (files s) TMP_MAX (draws s)) as [m|].
  2:{ subst r1. injection E as <- _. split; [now intros e ->|].
      intros m path b (Hm & _). discriminate Hm. }
  destruct E1 as [Hdr E1]. cbv zeta.
  destruct (open_error w (candidate w suffix m)) as [eo|] eqn:Ho.
  { subst r1. injection E as <- _. split.
    - intros e [[= ->] | [Hno _]]; [reflexivity | discriminate Hno].
    - intros m' path b ([= <-] & -> & Hno & _). rewrite Ho in Hno. discriminate Hno. }
  destruct E1 as [-> Hf].
  destruct (payload_bytes w payload) as [b|ep] eqn:Hb.
  2:{ injection E as <- _. split.
      - intros e [Hyes | [_ [[= ->] | (b & Hb' & _)]]];
          [discriminate Hyes | reflexivity | discriminate Hb'].
      - intros m' path b ([= <-] & -> & _ & Hb' & _). discriminate Hb'. }
  destruct (write_error w (candidate w suffix m) b) as [ew|] eqn:Hw.
  { injection E as <- _. split.
    - intros e [Hyes | [_ [Hp | (b' & [= <-] & Hw')]]];
        [discriminate Hyes | discriminate Hp |].
      rewrite Hw in Hw'. now injection Hw' as ->.
    - intros m' path b' ([= <-] & -> & _ & [= <-] & Hw'). rewrite Hw in Hw'.
      discriminate Hw'. }
  injection E as <- <-. split.
  - intros e [Hyes | [_ [Hp | (b' & [= <-] & Hw')]]];
      [discriminate Hyes | discriminate Hp |].
    rewrite Hw in Hw'. discriminate Hw'.
  - intros m' path b' ([= <-] & -> & _ & [= <-] & _). simpl.
    split; [reflexivity|]. split; [|exact Hdr].
    rewrite Hf. apply insert_insert_eq.
Qed.

Lemma at_state_start st :
  at_state st (session_memory st) (db st) (files st) (ticks st) (draws st).
Proof. unfold at_state. auto. Qed.

Lemma at_expand p h prompt s sm d fs t n r s' :
  p_llm p = Some h ->
  at_state s sm d fs t n ->
  llm_expand_prompt p prompt s = (r, s') ->
  r = fst (expand_prompt h prompt s) /\ at_state s' sm d fs t n.
Proof.
  intros Hh A. unfold llm_expand_prompt. rewrite Hh. intros E. rewrite E.
  split; [reflexivity|]. rewrite expand_prompt_run in E.
  destruct (expansion h prompt); injection E as _ <-; exact A.
Qed.

Lemma at_save_session s sm d fs t n k v r s' :
  at_state s sm d fs t n ->
  save_session w k v s = (r, s') ->
  r = Ok tt
  /\ at_state s' (Dict.set k (Entry v (now_isoformat w t)) sm) d fs (S t) n.
Proof.
  intros (<- & <- & <- & <- & <-). rewrite save_session_run. intros [= <- <-].
  unfold at_state. simpl. auto 10.
Qed.

Lemma at_stub_call s sm d fs t n stub app_id rq sid r s' :
  at_state s sm d fs t n ->
  stub_call stub app_id rq sid s = (r, s') ->
  r = call stub app_id rq sid /\ at_state s' sm d fs t n.
Proof. intros A. unfold stub_call. intros [= <- <-]. split; [reflexivity|exact A]. Qed.

Lemma at_store s sm d fs t n suffix what payload r s' :
  at_state s sm d fs t n ->
  recorded suffix (save_temp w suffix what payload) s = (r, s') ->
  session_memory s' = sm /\ db s' = d
  /\ (forall e, store_fails w suffix payload fs n e -> r = Raise e)
  /\ (forall m path b,
        store_succeeds w suffix payload fs n m path b ->
        r = Ok path /\ at_state s' sm d (<[path := b]> fs) t (S m)).
Proof.
  intros (<- & <- & <- & <- & <-) E.
  apply store_run in E as (Hs & Hd & Ht & Hfail & Hok).
  split; [exact Hs|]. split; [exact Hd|]. split; [exact Hfail|].
  intros m path b H. destruct (Hok m path b H) as (-> & Hf & Hn).
  unfold at_state. auto 10.
Qed.

Lemma at_save_persistent s sm d fs t n k v r s' :
  at_state s sm d fs t n ->
  save_persistent w k v s = (r, s') ->
  session_memory s' = sm
  /\ match db_error w k (Entry v (now_isoformat w t)) with
     | Some x => r = Raise x /\ db s' = d
     | None => r = Ok tt
     end.
Proof.
  intros (<- & <- & <- & <- & <-). rewrite save_persistent_run. cbv zeta.
  destruct (db_error w k _); intros [= <- <-]; simpl; auto.
Qed.

Lemma session_keys_differ sid :
  prompt_key sid <> image_key sid /\ prompt_key sid <> model_key sid
  /\ image_key sid <> model_key sid.
Proof. unfold prompt_key, image_key, model_key. repeat split; discriminate. Qed.

(** How a run that raised ends. *)
Lemma ends_in_error_intro e sid records st r st' stb :
  r = Ok (error_result e sid)
  /\ st' = with_log (ERROR, "Pipeline error: " +:+ exn_msg e) stb ->
  db stb = db st ->
  (forall k x, (k, x) ∈ records -> Dict.get k (session_memory stb) = Some x) ->
  ends_in_error e sid records st r st'.
Proof.
  intros [-> ->] Hd Hrec. unfold ends_in_error. simpl.
  split; [reflexivity|]. split; [exact Hrec|]. split; [exact Hd|]. now rewrite Hd.
Qed.

Ltac fatal_leaf Hend Hsm Hd :=
  eapply ends_in_error_intro; [exact Hend | exact Hd |];
  rewrite Hsm; intros ?k ?x Hin;
  repeat (apply elem_of_cons in Hin as [[= -> ->] | Hin]);
  try (now apply elem_of_nil in Hin);
  repeat (rewrite dict_get_set_ne
            by (apply session_keys_differ || (apply not_eq_sym; apply session_keys_differ)));
  apply dict_get_set_eq.

(** C3. A step that fails is fatal: when a service call, an artifact store or
    the durable write raises, and more generally whenever the body of
    [process] raises, [process] returns the error result with the message of
    that exception and the session id, and the durable tier is as it was.
    Every session record the run wrote is still in the session tier as
    written. In particular, when the image service raises, the prompt record
    exists and no durable record has been added.

    The last part follows a run with a loaded model through its stages and
    reads the failure off the environment: whichever of the image service, the
    storing of the image, the model service, the storing of the model and the
    durable write is the first to fail, with [e], the run ends in the error
    result for [e], with the session records of the stages completed before
    still in place as written and the durable tier as it was. *)
Theorem fatal_failure_result p prompt stub sid st r st' :
  process w p prompt stub sid st = (r, st') ->
  exists evs,
    trace st' = trace st ++ evs
    /\ (forall e stb,
          process_body w p prompt stub sid st = (Raise e, stb) ->
          r = Ok (VDict [ ("status", VStr "error");
                          ("error", VStr (exn_msg e));
                          ("session_id", VStr sid) ]))
    /\ (forall ev e,
          ev ∈ evs -> failed_with e ev ->
          r = Ok (VDict [ ("status", VStr "error");
                          ("error", VStr (exn_msg e));
                          ("session_id", VStr sid) ])
          /\ db st' = db st)
    /\ (forall k e,
          (k, e) ∈ session_writes evs ->
          Dict.get k (session_memory st') = Some e)
    /\ (forall rq e,
          EvCall (text2img_id p) rq (Raise e) ∈ evs ->
          r = Ok (VDict [ ("status", VStr "error");
                          ("error", VStr (exn_msg e));
                          ("session_id", VStr sid) ])
          /\ is_Some (Dict.get (prompt_key sid) (session_memory st'))
          /\ (db st !! creation_key sid = None ->
              db st' !! creation_key sid = None))
    /\ (forall h expanded expanded_prompt,
          p_llm p = Some h ->
          fst (expand_prompt h prompt st) = Ok expanded ->
          getitem expanded (IStr "expanded_prompt") = Ok expanded_prompt ->
          let prompt_rec :=
            (prompt_key sid,
             Entry (prompt_record prompt expanded) (now_isoformat w (ticks st))) in
          (* the image service raises *)
          (forall e,
             call stub (text2img_id p) (VDict [("prompt", expanded_prompt)]) sid
             = Raise e ->
             ends_in_error e sid [prompt_rec] st r st')
          /\ forall img_result image,
               call stub (text2img_id p) (VDict [("prompt", expanded_prompt)]) sid
               = Ok img_result ->
               getitem img_result (IStr "image") = Ok image ->
               (* the image cannot be stored *)
               (forall e,
                  store_fails w ".png" image (files st) (draws st) e ->
                  ends_in_error e sid [prompt_rec] st r st')
               /\ forall m1 img_path b1 style_hints technical_params,
                    store_succeeds w ".png" image (files st) (draws st) m1 img_path b1 ->
                    getitem expanded (IStr "style_hints") = Ok style_hints ->
                    getitem expanded (IStr "technical_params") = Ok technical_params ->
                    let image_rec :=
                      (image_key sid,
                       Entry (image_record img_path style_hints)
                         (now_isoformat w (1 + ticks st))) in
                    (* the model service raises *)
                    (forall e,
                       call stub (img2_3d_id p)
                         (VDict [("image", VStr img_path); ("params", technical_params)])
                         sid
                       = Raise e ->
                       ends_in_error e sid [prompt_rec; image_rec] st r st')
                    /\ forall model_result model,
                         call stub (img2_3d_id p)
                           (VDict [("image", VStr img_path); ("params", technical_params)])
                           sid
                         = Ok model_result ->
                         getitem model_result (IStr "model") = Ok model ->
                         (* the model cannot be stored *)
                         (forall e,
                            store_fails w ".glb" model (<[img_path := b1]> (files st))
                              (S m1) e ->
                            ends_in_error e sid [prompt_rec; image_rec] st r st')
                         /\ forall m2 model_path b2 metadata,
                              store_succeeds w ".glb" model
                                (<[img_path := b1]> (files st)) (S m1) m2 model_path b2 ->
                              get_method model_result "metadata" (VDict []) = Ok metadata ->
                              let model_rec :=
                                (model_key sid,
                                 Entry (model_record model_path metadata)
                                   (now_isoformat w (2 + ticks st))) in
                              (* the durable write raises *)
                              forall e,
                                db_error w (creation_key sid)
                                  (Entry
                                     (creation_record
                                        (prompt_record prompt expanded)
                                        (image_record img_path style_hints)
                                        (model_record model_path metadata))
                                     (now_isoformat w (3 + ticks st)))
                                = Some e ->
                                ends_in_error e sid [prompt_rec; image_rec; model_rec]
                                  st r st').
Proof.
  intros H. pose proof (process_outcome _ _ _ _ _ _ _ H) as (evs & Ht & Hp & Hs & Hr).
  assert (Hfail : forall ev e, ev ∈ evs -> failed_with e ev ->
            r = Ok (error_result e sid) /\ db st' = db st).
  { intros ev e Hin Hf.
    destruct Hr as [(e0 & stb & _ & -> & _ & Hd & Hall) | Hr].
    - rewrite Forall_forall in Hall.
      rewrite (failed_raised_with e e0 ev); auto.
    - destruct Hr as (? & ? & ? & ? & ? & ? & ? & ? & ? & ? & _ & _ & _ & _ & Hall & _).
      rewrite Forall_forall in Hall. exfalso.
      eapply Hall; eauto using failed_is_raised. }
  assert (Hrem : forall k e, (k, e) ∈ session_writes evs ->
            Dict.get k (session_memory st') = Some e).
  { intros k e Hin. rewrite Hs. eapply session_writes_remain; eauto. }
  exists evs. split; [assumption|]. split; [|split; [|split; [|split]]].
  - intros e stb Hb.
    destruct Hr as [(e0 & stb0 & Hb0 & -> & _) | Hr].
    + rewrite Hb in Hb0. now injection Hb0 as -> _.
    + destruct Hr as (? & ? & ? & ? & ? & ? & ? & ? & ? & ? & _ & -> & Hb0 & _).
      rewrite Hb in Hb0. discriminate Hb0.
  - exact Hfail.
  - exact Hrem.
  - intros rq e Hin.
    destruct (Hfail _ e Hin) as [Hres Hd]; [reflexivity|].
    destruct (call_after_prompt_record _ _ _ _ _ _ Hp Hin) as (ent & Hent).
    split; [exact Hres|].
    split; [rewrite (Hrem _ _ Hent); eauto|]. now rewrite Hd.
  - clear evs Ht Hp Hs Hr Hfail Hrem.
    intros h expanded expanded_prompt Hh Hexp Hep prompt_rec.
    apply process_run in H as (rb & stb & Hb & Hend).
    unfold process_body in Hb. pose proof (at_state_start st) as A0.
    (* Expand *)
    apply bind_inv in Hb as [(x & s1 & E & Hb) | (e0 & E & ->)];
      (eapply at_expand in E as [Hx A1]; [|exact Hh|exact A0]);
      rewrite Hexp in Hx; [|discriminate Hx].
    injection Hx as ->.
    apply bind_inv in Hb as [([] & s2 & E & Hb) | (e0 & E & ->)];
      (eapply at_save_session in E as [Hx A2]; [|exact A1]); [|discriminate Hx].
    clear Hx A0 A1.
    (* GenerateImage *)
    apply bind_inv in Hb as [(x & s3 & E & Hb) | (e0 & E & ->)];
      apply step_subscript in E as [Hx ->]; rewrite Hep in Hx; [|discriminate Hx].
    injection Hx as ->.
    apply bind_inv in Hb as [(x & s3 & E & Hb) | (e0 & E & ->)];
      (eapply at_stub_call in E as [Hx A3]; [|exact A2]).
    2:{ destruct A3 as (Hsm & Hd & _). split.
        - intros e He. rewrite He in Hx. injection Hx as ->.
          fatal_leaf Hend Hsm Hd.
        - intros img_result image He. rewrite He in Hx. discriminate Hx. }
    split; [intros e He; rewrite He in Hx; discriminate Hx|].
    intros img_result image Hc Hi. rewrite Hc in Hx. injection Hx as ->. clear A2.
    apply bind_inv in Hb as [(x & s4 & E & Hb) | (e0 & E & ->)];
      apply step_subscript in E as [Hx ->]; rewrite Hi in Hx; [|discriminate Hx].
    injection Hx as ->.
    apply bind_inv in Hb as [(x & s4 & E & Hb) | (e0 & E & ->)];
      (eapply at_store in E as (Hsm & Hd & Hno & Hyes); [|exact A3]).
    2:{ split.
        - intros e He. apply Hno in He. injection He as ->.
          fatal_leaf Hend Hsm Hd.
        - intros m1 img_path b1 style_hints technical_params Hst.
          apply Hyes in Hst as [Hx _]. discriminate Hx. }
    split; [intros e He; apply Hno in He; discriminate He|].
    intros m1 img_path b1 style_hints technical_params Hst Hsh Htp image_rec.
    apply Hyes in Hst as [Hx A4]. injection Hx as ->. clear A3 Hsm Hd Hno Hyes.
    apply bind_inv in Hb as [(x & s5 & E & Hb) | (e0 & E & ->)];
      apply step_subscript in E as [Hx ->]; rewrite Hsh in Hx; [|discriminate Hx].
    injection Hx as ->.
    apply bind_inv in Hb as [([] & s5 & E & Hb) | (e0 & E & ->)];
      (eapply at_save_session in E as [Hx A5]; [|exact A4]); [|discriminate Hx].
    clear Hx A4.
    (* GenerateModel *)
    apply bind_inv in Hb as [(x & s6 & E & Hb) | (e0 & E & ->)];
      apply step_subscript in E as [Hx ->]; rewrite Htp in Hx; [|discriminate Hx].
    injection Hx as ->.
    apply bind_inv in Hb as [(x & s6 & E & Hb) | (e0 & E & ->)];
      (eapply at_stub_call in E as [Hx A6]; [|exact A5]).
    2:{ destruct A6 as (Hsm & Hd & _). split.
        - intros e He. rewrite He in Hx. injection Hx as ->.
          fatal_leaf Hend Hsm Hd.
        - intros model_result model He. rewrite He in Hx. discriminate Hx. }
    split; [intros e He; rewrite He in Hx; discriminate Hx|].
    intros model_result model Hc2 Hm. rewrite Hc2 in Hx. injection Hx as ->. clear A5.
    apply bind_inv in Hb as [(x & s7 & E & Hb) | (e0 & E & ->)];
      apply step_subscript in E as [Hx ->]; rewrite Hm in Hx; [|discriminate Hx].
    injection Hx as ->.
    apply bind_inv in Hb as [(x & s7 & E & Hb) | (e0 & E & ->)];
      (eapply at_store in E as (Hsm & Hd & Hno & Hyes); [|exact A6]).
    2:{ split.
        - intros e He. apply Hno in He. injection He as ->.
          fatal_leaf Hend Hsm Hd.
        - intros m2 model_path b2 metadata Hst.
          apply Hyes in Hst as [Hx _]. discriminate Hx. }
    split; [intros e He; apply Hno in He; discriminate He|].
    intros m2 model_path b2 metadata Hst Hmd model_rec e He.
    apply Hyes in Hst as [Hx A7]. injection Hx as ->. clear A6 Hsm Hd Hno Hyes.
    apply bind_inv in Hb as [(x & s8 & E & Hb) | (e0 & E & ->)];
      apply step_lift in E as [Hx ->]; rewrite Hmd in Hx; [|discriminate Hx].
    injection Hx as ->.
    apply bind_inv in Hb as [([] & s8 & E & Hb) | (e0 & E & ->)];
      (eapply at_save_session in E as [Hx A8]; [|exact A7]); [|discriminate Hx].
    clear Hx A7.
    (* Persist *)
    apply bind_inv in Hb as [(x & s9 & E & Hb) | (e0 & E & ->)];
      apply step_subscript in E as [Hx ->]; rewrite Hsh in Hx; [|discriminate Hx].
    injection Hx as ->.
    apply bind_inv in Hb as [(x & s9 & E & Hb) | (e0 & E & ->)];
      apply step_lift in E as [Hx ->]; rewrite Hmd in Hx; [|discriminate Hx].
    injection Hx as ->.
    apply bind_inv in Hb as [([] & s9 & E & Hb) | (e0 & E & ->)];
      (eapply at_save_persistent in E as [Hsm Hx]; [|exact A8]);
      unfold creation_record, prompt_record, image_record, model_record in He;
      simpl in He; rewrite He in Hx; destruct Hx as [Hx Hd]; [discriminate Hx|].
    injection Hx as ->.
    fatal_leaf Hend Hsm Hd.
Qed.

(** C1. The durable record of a run is all or nothing. A run that returns the
    error result, whatever the stage that failed, leaves the durable tier as it
    was, so a session id that had no record has none. The only change a run
    ever makes to the tier is to store, under creation_<session_id>, a record
    with all of prompt, image and model; it does so at the end of a run that
    went through the whole plan without a failed step, after the three session
    records were written. *)
Theorem persistent_record_all_or_nothing p prompt stub sid st r st' :
  process w p prompt stub sid st = (r, st') ->
  (forall v, r = Ok v -> is_error_result v ->
     db st' = db st
     /\ (db st !! creation_key sid = None -> db st' !! creation_key sid = None))
  /\ (forall evs ev,
        trace st' = trace st ++ evs -> ev ∈ evs -> raised ev -> db st' = db st)
  /\ (db st' = db st
      \/ exists evs prompt_rec image_rec model_rec t1 t2 t3 t4,
           trace st' = trace st ++ evs
           /\ map step_of evs = plan p sid
           /\ Forall (fun ev => ~ raised ev) evs
           /\ session_writes evs
              = [ (prompt_key sid, Entry prompt_rec t1);
                  (image_key sid, Entry image_rec t2);
                  (model_key sid, Entry model_rec t3) ]
           /\ db st'
              = <[creation_key sid :=
                    Entry (creation_record prompt_rec image_rec model_rec) t4]>
                  (db st))
  /\ (forall e,
        db st' !! creation_key sid = Some e ->
        db st !! creation_key sid = Some e
        \/ exists prompt_rec image_rec model_rec,
             data e = VDict [ ("prompt", prompt_rec);
                              ("image", image_rec);
                              ("model", model_rec) ]).
Proof.
  intros H. apply process_outcome in H as (evs & Ht & Hp & Hs & Hr).
  destruct Hr as [(e0 & stb & _ & -> & _ & Hd & Hall) | Hr].
  - rewrite Hd. repeat split; auto.
  - destruct Hr as (x1 & x2 & x3 & x4 & x5 & x6 & t1 & t2 & t3 & t4
                    & _ & -> & _ & Hplan & Hok & Hw & Hd).
    split; [|split; [|split]].
    + intros v [= <-] Herr. now apply success_not_error in Herr.
    + intros evs' ev Ht' Hin Hraised. rewrite Ht in Ht'.
      apply app_inv_head in Ht' as <-. rewrite Forall_forall in Hok.
      exfalso. eapply Hok; eauto.
    + right. exists evs, x4, x5, x6, t1, t2, t3, t4. auto 10.
    + intros e He. rewrite Hd, lookup_insert_eq in He. injection He as <-.
      right. unfold creation_record. simpl. eauto.
Qed.

(** C6, at the input where it fails. When the model file is missing,
    [config] catches the error of the handler's construction and builds the
    pipeline around no handler; every run of that pipeline then stops at its
    first line and returns the error result: no stage runs, no service is
    called, nothing is recorded. *)
Theorem unloaded_model_aborts prompt stub sid st :
  path_exists w (llm_model_path w) = false ->
  exists g p st1,
    config w no_handlers st = (Ok g, st1)
    /\ pipeline g = Some p
    /\ p_llm p = None
    /\ process w p prompt stub sid st1
       = (Ok (VDict
                [ ("status", VStr "error");
                  ("error", VStr "'NoneType' object has no attribute 'expand_prompt'");
                  ("session_id", VStr sid) ]),
          with_log
            (ERROR, "Pipeline error: 'NoneType' object has no attribute 'expand_prompt'")
            st1).
Proof.
  intros Hmissing. unfold config, no_handlers, LLMHandler_init. simpl.
  rewrite Hmissing. simpl. do 3 eexists.
  split; [reflexivity|]. split; [reflexivity|]. split; reflexivity.
Qed.
End PipelineFacts.

(** * The properties at work in the concrete environment *)

(** A run in which everything answers goes through the four stages. *)
Example demo_run_result :
  fst demo_run
  = Ok (VDict
          [ ("status", VStr "success");
            ("prompt",
              VDict
                [ ("expanded_prompt", VStr "A castle in bright SUNLIGHT, wide view");
                  ("style_hints",
                    VDict
                      [ ("lighting",
                          VDict [ ("primary_light", VStr "natural");
                                  ("mood", VStr "bright") ]);
                        ("composition",
                          VDict [ ("perspective", VStr "wide");
                                  ("focus", VStr "background") ]) ]);
                  ("technical_params", VStr "low-poly, stone") ]);
            ("image_path", VStr "/tmp/tmpa0.png");
            ("model_path", VStr "/tmp/tmpa1.glb");
            ("session_id", VStr "s1") ]).
Proof. vm_compute. reflexivity. Qed.

(** The artifacts hold the decoded text and the raw bytes. *)
Example demo_run_files :
  files (snd demo_run) !! "/tmp/tmpa0.png" = Some [Byte.x68; Byte.x69]
  /\ files (snd demo_run) !! "/tmp/tmpa1.glb" = Some [Byte.x67; Byte.x6c].
Proof. split; vm_compute; reflexivity. Qed.

(** The durable record of the run reads back. *)
Example demo_run_persistent :
  get_persistent (creation_key "s1") (snd demo_run)
  = VDict
      [ ("prompt", get_session (prompt_key "s1") (snd demo_run));
        ("image", get_session (image_key "s1") (snd demo_run));
        ("model", get_session (model_key "s1") (snd demo_run)) ].
Proof. vm_compute. reflexivity. Qed.

(** A handler whose model raises on every call: the run still succeeds, on
    the original prompt. *)
Example degraded_run_result :
  fst degraded_run
  = Ok (success_result (fallback_expansion "a castle at sunset")
          "/tmp/tmpa0.png" "/tmp/tmpa1.glb" "s1").
Proof. vm_compute. reflexivity. Qed.

(** No handler at all, as [config] leaves it when the model file is missing:
    the same prompt and the same services, and the run is an error. *)
Example unloaded_run_result :
  fst (process demo_world (pipeline_with None) "a castle at sunset" demo_stub "s1"
         demo_state)
  = Ok (VDict
          [ ("status", VStr "error");
            ("error", VStr "'NoneType' object has no attribute 'expand_prompt'");
            ("session_id", VStr "s1") ]).
Proof. vm_compute. reflexivity. Qed.

Lemma persistent_record_all_or_nothing_witness :
  failed_run = (fst failed_run, snd failed_run)
  /\ db (snd failed_run) = db demo_state.
Proof.
  split; [vm_compute; reflexivity|].
  refine (proj1 (proj1 (persistent_record_all_or_nothing demo_world
            (pipeline_with (Some demo_handler)) "a castle at sunset" failing_stub
            "s2" demo_state (fst failed_run) (snd failed_run) _)
            (error_result (Exn "ConnectionError" "image service unavailable") "s2")
            _ _)).
  - vm_compute. reflexivity.
  - vm_compute. reflexivity.
  - eexists _, _. reflexivity.
Defined.

Lemma fatal_failure_result_witness :
  (failed_run = (fst failed_run, snd failed_run)
   /\ call failing_stub TEXT2IMG_APP_ID
        (VDict [("prompt", VStr "A castle in bright SUNLIGHT, wide view")]) "s2"
      = Raise (Exn "ConnectionError" "image service unavailable")
   /\ fst failed_run
      = Ok (VDict [ ("status", VStr "error");
                    ("error", VStr "image service unavailable");
                    ("session_id", VStr "s2") ])
   /\ Dict.get "prompt_s2" (session_memory (snd failed_run))
      = Some (Entry (prompt_record "a castle at sunset" demo_expanded)
                "2024-05-01T10:00:00")
   /\ db (snd failed_run) = db demo_state
   /\ exists evs,
        trace (snd failed_run) = trace demo_state ++ evs
        /\ forall k e, (k, e) ∈ session_writes evs ->
             Dict.get k (session_memory (snd failed_run)) = Some e)
  /\ (readonly_run = (fst readonly_run, snd readonly_run)
      /\ fst readonly_run
         = Ok (VDict [ ("status", VStr "error");
                       ("error", VStr "attempt to write a readonly database");
                       ("session_id", VStr "s3") ])
      /\ Dict.get "prompt_s3" (session_memory (snd readonly_run))
         = Some (Entry (prompt_record "a castle at sunset" demo_expanded)
                   "2024-05-01T10:00:00")
      /\ Dict.get "image_s3" (session_memory (snd readonly_run))
         = Some (Entry
                   (image_record "/tmp/tmpa0.png"
                      (VDict
                         [ ("lighting",
                             VDict [ ("primary_light", VStr "natural");
                                     ("mood", VStr "bright") ]);
                           ("composition",
                             VDict [ ("perspective", VStr "wide");
                                     ("focus", VStr "background") ]) ]))
                   "2024-05-01T10:00:01")
      /\ Dict.get "model_s3" (session_memory (snd readonly_run))
         = Some (Entry
                   (model_record "/tmp/tmpa1.glb" (VDict [("faces", VInt 12)]))
                   "2024-05-01T10:00:02")
      /\ db (snd readonly_run) = db demo_state).
Proof.
  split.
  - split; [vm_compute; reflexivity|]. split; [reflexivity|].
    destruct (fatal_failure_result demo_world (pipeline_with (Some demo_handler))
                "a castle at sunset" failing_stub "s2" demo_state
                (fst failed_run) (snd failed_run))
      as (evs & Ht & _ & _ & Hrem & _ & Henv).
    + vm_compute. reflexivity.
    + destruct (Henv demo_handler demo_expanded
                  (VStr "A castle in bright SUNLIGHT, wide view"))
        as [Himage _]; [reflexivity | vm_compute; reflexivity | reflexivity |].
      destruct (Himage (Exn "ConnectionError" "image service unavailable"))
        as (Hr & Hrec & Hd & _); [reflexivity|].
      split; [exact Hr|]. split; [apply Hrec, list_elem_of_here|].
      split; [exact Hd|]. exists evs. split; assumption.
  - split; [vm_compute; reflexivity|].
    destruct (fatal_failure_result readonly_world (pipeline_with (Some demo_handler))
                "a castle at sunset" demo_stub "s3" demo_state
                (fst readonly_run) (snd readonly_run))
      as (_ & _ & _ & _ & _ & _ & Henv).
    + vm_compute. reflexivity.
    + destruct (Henv demo_handler demo_expanded
                  (VStr "A castle in bright SUNLIGHT, wide view"))
        as [_ Himage]; [reflexivity | vm_compute; reflexivity | reflexivity |].
      destruct (Himage (VDict [("image", VStr "aGk=")]) (VStr "aGk="))
        as [_ Hstored]; [reflexivity | reflexivity |].
      destruct (Hstored 0%nat "/tmp/tmpa0.png" [Byte.x68; Byte.x69]
                  (VDict
                     [ ("lighting",
                         VDict [ ("primary_light", VStr "natural");
                                 ("mood", VStr "bright") ]);
                       ("composition",
                         VDict [ ("perspective", VStr "wide");
                                 ("focus", VStr "background") ]) ])
                  (VStr "low-poly, stone"))
        as [_ Hmodel];
        [repeat split; vm_compute; reflexivity | reflexivity | reflexivity |].
      destruct (Hmodel (VDict [("model", VBytes [Byte.x67; Byte.x6c]);
                               ("metadata", VDict [("faces", VInt 12)])])
                  (VBytes [Byte.x67; Byte.x6c]))
        as [_ Hstored']; [reflexivity | reflexivity |].
      destruct (Hstored' 1%nat "/tmp/tmpa1.glb" [Byte.x67; Byte.x6c]
                  (VDict [("faces", VInt 12)])
                  ltac:(repeat split; vm_compute; reflexivity) eq_refl
                  (Exn "OperationalError" "attempt to write a readonly database")
                  eq_refl)
        as (Hr & Hrec & Hd & _).
      split; [exact Hr|].
      split; [apply Hrec; rewrite !elem_of_cons; auto|].
      split; [apply Hrec; rewrite !elem_of_cons; auto|].
      split; [apply Hrec; rewrite !elem_of_cons; auto|]. exact Hd.
Defined.

Lemma stage_order_witness :
  demo_run = (fst demo_run, snd demo_run)
  /\ exists evs,
       trace (snd demo_run) = trace demo_state ++ evs
       /\ map step_of evs `prefix_of` plan (pipeline_with (Some demo_handler)) "s1".
Proof.
  split; [vm_compute; reflexivity|].
  destruct (stage_order demo_world (pipeline_with (Some demo_handler))
              "a castle at sunset" demo_stub "s1" demo_state
              (fst demo_run) (snd demo_run))
    as (evs & Ht & Hp & _).
  - vm_compute. reflexivity.
  - exists evs. split; assumption.
Defined.

Lemma unloaded_model_aborts_witness :
  path_exists demo_world (llm_model_path demo_world) = false
  /\ exists g p st1,
       config demo_world no_handlers demo_state = (Ok g, st1)
       /\ pipeline g = Some p
       /\ p_llm p = None.
Proof.
  split; [reflexivity|].
  destruct (unloaded_model_aborts demo_world "a castle at sunset" demo_stub "s1"
              demo_state)
    as (g & p & st1 & Hc & Hp & Hn & _).
  - reflexivity.
  - exists g, p, st1. repeat split; assumption.
Defined.

Lemma three_writes_wf : Dict.wf (session_memory three_writes).
Proof. unfold Dict.wf. apply (bool_decide_unpack _). vm_compute. exact I. Defined.

Lemma list_recent_sessions_spec_witness :
  Dict.wf (session_memory three_writes) /\ 0 <= 2
  /\ length (list_recent_sessions 2 three_writes)
     = Nat.min (Z.to_nat 2) (length (session_memory three_writes)).
Proof.
  split; [exact three_writes_wf|]. split; [lia|].
  refine (proj1 (list_recent_sessions_spec 2 three_writes three_writes_wf _)). lia.
Defined.

(** C7 as stated, at a negative count: with three records in the session
    tier, [list_recent_sessions(-1)] returns two of them, which is not at most
    -1. *)
Lemma list_recent_sessions_negative_count :
  Dict.wf (session_memory three_writes)
  /\ length (list_recent_sessions (-1) three_writes) = 2%nat
  /\ ~ (Z.of_nat (length (list_recent_sessions (-1) three_writes)) <= -1).
Proof.
  split; [exact three_writes_wf|]. split; [vm_compute; reflexivity|].
  vm_compute. intros H. apply H. reflexivity.
Qed.

Lemma session_round_trip_witness :
  forallb (fun c => negb (writes_session "a" c))
    [SaveSession "b" (VInt 2); GetSession "a"; SavePersistent "a" (VInt 3)] = true
  /\ get_session "a"
       (after_calls demo_world
          [SaveSession "b" (VInt 2); GetSession "a"; SavePersistent "a" (VInt 3)]
          (after_call demo_world (SaveSession "a" (VInt 1)) demo_state))
     = VInt 1.
Proof.
  split; [reflexivity|].
  refine (proj1 (session_round_trip demo_world "a" (VInt 1)
                   [SaveSession "b" (VInt 2); GetSession "a"; SavePersistent "a" (VInt 3)]
                   demo_state ∅ ∅ _) _); reflexivity.
Defined.

(** * Further properties *)

(** ** MemoryHandler *)

Section MemoryMore.
Variable w : World.

Lemma dict_get_wf_elem {A : Type} k (v : A) d :
  Dict.wf d -> (k, v) ∈ d -> Dict.get k d = Some v.
Proof.
  unfold Dict.wf. induction d as [|[k' v'] d IH]; simpl; intros Hwf Hin.
  - now apply elem_of_nil in Hin.
  - apply NoDup_cons in Hwf as [Hk' Hwf].
    apply elem_of_cons in Hin as [[= -> ->] | Hin].
    + now rewrite String.eqb_refl.
    + destruct (String.eqb k k') eqn:E; [|auto].
      apply String.eqb_eq in E. subst k'. exfalso. apply Hk'.
      apply (list_elem_of_fmap_2 fst) in Hin. exact Hin.
Qed.

Lemma dict_set_elem {A : Type} k (v : A) d x :
  x ∈ Dict.set k v d -> x = (k, v) \/ x ∈ d.
Proof.
  induction d as [|[k' v'] d IH]; simpl.
  - rewrite list_elem_of_singleton. auto.
  - destruct (String.eqb k k'); rewrite !elem_of_cons; intuition.
Qed.

(** X1. Writing a key that is already in the session tier replaces its value
    and its timestamp in place: the key keeps its position, no key is added,
    and every other key keeps its entry. *)
Theorem save_session_last_write_wins k v st e0 :
  Dict.get k (session_memory st) = Some e0 ->
  let st' := after_call w (SaveSession k v) st in
  Dict.get k (session_memory st') = Some (Entry v (now_isoformat w (ticks st)))
  /\ Dict.keys (session_memory st') = Dict.keys (session_memory st)
  /\ forall k', k' <> k ->
       Dict.get k' (session_memory st') = Dict.get k' (session_memory st).
Proof.
  intros H. cbv zeta. rewrite session_after_call.
  split; [apply dict_get_set_eq|]. split.
  - rewrite dict_keys_set. now rewrite H.
  - intros k' Hne. apply dict_get_set_ne. congruence.
Qed.

(** X2. The two tiers do not touch each other: whatever is done to the session
    tier, clearing included, the durable tier is as it was, and a durable
    write, accepted or refused, leaves the session tier as it was. *)
Theorem tiers_independent cs st :
  (forallb (fun c => negb (writes_durable c)) cs = true ->
   db (after_calls w cs st) = db st)
  /\ (forallb (fun c => negb (changes_session c)) cs = true ->
      session_memory (after_calls w cs st) = session_memory st).
Proof.
  split; revert st; induction cs as [|c cs IH]; intros st H; simpl in *; auto;
    apply andb_true_iff in H as [H1 H2]; rewrite IH by assumption.
  - destruct c; simpl in *; try reflexivity; discriminate.
  - rewrite session_after_call. destruct c; simpl in *; try reflexivity; discriminate.
Qed.

Lemma db_after_call_other k c st :
  writes_persistent k c = false ->
  db (after_call w c st) !! k = db st !! k.
Proof.
  destruct c; simpl; try reflexivity.
  intros Hne. apply String.eqb_neq in Hne.
  rewrite save_persistent_run. simpl.
  destruct (db_error w key _); simpl; [reflexivity|].
  apply lookup_insert_ne. congruence.
Qed.

Lemma persistent_round_trip_aux k v st st1 :
  save_persistent w k v st = (Ok tt, st1) -> get_persistent k st1 = v.
Proof.
  rewrite save_persistent_run. simpl. destruct (db_error w k _); [discriminate|].
  intros [= <-]. unfold get_persistent. simpl. now rewrite lookup_insert_eq.
Qed.

(** X3. A durable record stays readable: once [save_persistent(k, v)] has
    returned, [get_persistent(k)] is [v] after any further calls that do not
    write [k] durably, whether they write other durable keys, write the
    session tier or clear it. *)
Theorem persistent_read_after_calls k v cs st st1 :
  save_persistent w k v st = (Ok tt, st1) ->
  forallb (fun c => negb (writes_persistent k c)) cs = true ->
  get_persistent k (after_calls w cs st1) = v.
Proof.
  intros Hs Hcs.
  assert (H1 : get_persistent k st1 = v)
    by (now apply (persistent_round_trip_aux k v st st1)).
  rewrite <- H1. clear Hs H1. revert st1.
  induction cs as [|c cs IH]; intros st1; simpl in *; [reflexivity|].
  apply andb_true_iff in Hcs as [Hc Hcs]. rewrite IH by assumption.
  unfold get_persistent. rewrite db_after_call_other; [reflexivity|].
  now apply negb_true_iff.
Qed.

(** *** The recent sessions, at the edges *)

Lemma slice_to_take {A : Type} n (l : list A) :
  slice_to n l
  = take (if 0 <=? n then Z.to_nat n else Z.to_nat (Z.of_nat (length l) + n)) l.
Proof. unfold slice_to. now destruct (0 <=? n). Qed.

Lemma sorted_desc_length l : length (sorted_desc l) = length l.
Proof. now rewrite (sorted_desc_perm l). Qed.

Lemma recent_take m sm :
  Dict.wf sm ->
  let r := Dict.of_items (take m (sorted_desc sm)) in
  r = take m (sorted_desc sm)
  /\ length r = Nat.min m (length sm)
  /\ (forall x, x ∈ r -> x ∈ sm)
  /\ (forall x y, x ∈ r -> y ∈ sm -> y ∉ r -> not_older x y)
  /\ StronglySorted not_older r.
Proof.
  intros Hwf. cbv zeta.
  rewrite dict_of_items_wf by (apply take_wf, sorted_desc_keys, Hwf).
  set (l := sorted_desc sm).
  assert (Hs : StronglySorted not_older (take m l ++ drop m l))
    by (rewrite take_drop; apply sorted_desc_sorted).
  split; [reflexivity|]. split; [|split; [|split]].
  - rewrite length_take. unfold l. now rewrite (sorted_desc_perm sm).
  - intros x Hx. rewrite <- (sorted_desc_perm sm). fold l.
    rewrite <- (take_drop m l). apply elem_of_app. now left.
  - intros x y Hx Hy Hny. rewrite <- (sorted_desc_perm sm) in Hy. fold l in Hy.
    rewrite <- (take_drop m l) in Hy. apply elem_of_app in Hy as [Hy|Hy]; [tauto|].
    eapply StronglySorted_app_1_elem_of; eauto.
  - eapply StronglySorted_app_1_l; eauto.
Qed.

(** X4. A negative count does not mean "none": [list_recent_sessions(n)] with
    [n < 0] returns all the session items but the [-n] oldest, that is
    [max(0, size + n)] items, still the most recent ones and still in order of
    non-increasing timestamp. *)
Theorem list_recent_sessions_negative n st :
  Dict.wf (session_memory st) -> n < 0 ->
  let r := list_recent_sessions n st in
  length r = Z.to_nat (Z.of_nat (length (session_memory st)) + n)
  /\ (forall x, x ∈ r -> x ∈ session_memory st)
  /\ (forall x y, x ∈ r -> y ∈ session_memory st -> y ∉ r -> not_older x y)
  /\ StronglySorted not_older r.
Proof.
  intros Hwf Hn. unfold list_recent_sessions. cbv zeta. rewrite slice_to_take.
  destruct (Z.leb_spec 0 n); [lia|].
  rewrite sorted_desc_length.
  destruct (recent_take
              (Z.to_nat (Z.of_nat (length (session_memory st)) + n))
              (session_memory st) Hwf) as (_ & Hlen & Hsub & Hrec & Hsort).
  split; [rewrite Hlen; lia|]. auto.
Qed.

(** X5. Whatever the count, the mapping returned by [list_recent_sessions] is
    a part of the session tier: its keys are distinct, and under each key it
    holds the very entry the tier holds, so its data is what [get_session]
    returns. *)
Theorem list_recent_sessions_agrees n st :
  Dict.wf (session_memory st) ->
  Dict.wf (list_recent_sessions n st)
  /\ forall k e,
       (k, e) ∈ list_recent_sessions n st ->
       Dict.get k (session_memory st) = Some e /\ get_session k st = data e.
Proof.
  intros Hwf. unfold list_recent_sessions. cbv zeta. rewrite slice_to_take.
  set (m := if 0 <=? n then _ else _).
  destruct (recent_take m (session_memory st) Hwf) as (Heq & _ & Hsub & _).
  rewrite Heq. split; [apply take_wf, sorted_desc_keys, Hwf|].
  intros k e Hin. rewrite <- Heq in Hin. apply Hsub in Hin.
  assert (Hg : Dict.get k (session_memory st) = Some e)
    by (now apply dict_get_wf_elem).
  split; [exact Hg|]. unfold get_session. now rewrite Hg.
Qed.

Lemma stamped_insert_desc t x l :
  stamped t (insert_desc x l) = stamped t (x :: l).
Proof.
  unfold stamped. induction l as [|y l IH]; simpl; [reflexivity|].
  destruct (String.leb (timestamp (snd y)) (timestamp (snd x))) eqn:E;
    [reflexivity|].
  assert (Hne : timestamp (snd y) <> timestamp (snd x)).
  { intros Heq. rewrite Heq in E.
    pose proof (reflexivity (R := String.le) (timestamp (snd x))) as Hr.
    unfold String.le in Hr. rewrite E in Hr. exact Hr. }
  rewrite (filter_cons _ y), IH, !(filter_cons _ x), (filter_cons _ y).
  repeat case_decide; try reflexivity; congruence.
Qed.

Lemma stamped_sorted_desc t l : stamped t (sorted_desc l) = stamped t l.
Proof.
  induction l as [|x l IH]; [reflexivity|].
  simpl. rewrite stamped_insert_desc. unfold stamped in *.
  rewrite !(filter_cons _ x), IH. reflexivity.
Qed.

(** X6. With a count that reaches the size of the session tier,
    [list_recent_sessions] returns every item, and the sort is stable: items
    with the same timestamp come in the order in which the tier holds them,
    which is the order in which their keys were first written. *)
Theorem list_recent_sessions_all_stable n st :
  Dict.wf (session_memory st) ->
  Z.of_nat (length (session_memory st)) <= n ->
  list_recent_sessions n st ≡ₚ session_memory st
  /\ forall t, stamped t (list_recent_sessions n st) = stamped t (session_memory st).
Proof.
  intros Hwf Hn. unfold list_recent_sessions. cbv zeta. rewrite slice_to_take.
  destruct (Z.leb_spec 0 n); [|lia].
  rewrite take_ge by (rewrite sorted_desc_length; lia).
  rewrite dict_of_items_wf by (apply sorted_desc_keys, Hwf).
  split; [apply sorted_desc_perm | intros t; apply stamped_sorted_desc].
Qed.

Lemma ltb_not_leb a b : String.ltb a b = true -> String.leb b a = false.
Proof.
  unfold String.ltb, String.leb. rewrite (String.compare_antisym b a).
  now destruct (String.compare a b).
Qed.

Lemma sorted_desc_head x l :
  x ∈ l ->
  (forall y, y ∈ l -> y = x \/ String.ltb (ts y) (ts x) = true) ->
  exists rest, sorted_desc l = x :: rest.
Proof.
  intros Hin Hmax.
  pose proof (sorted_desc_sorted l) as Hs.
  pose proof (sorted_desc_perm l) as Hp.
  destruct (sorted_desc l) as [|h rest] eqn:E.
  - rewrite <- Hp in Hin. now apply elem_of_nil in Hin.
  - assert (Hh : h ∈ l) by (rewrite <- Hp; apply list_elem_of_here).
    destruct (Hmax h Hh) as [-> | Hlt]; [eauto|].
    exfalso. rewrite <- Hp in Hin.
    apply elem_of_cons in Hin as [-> | Hin].
    + apply ltb_not_leb in Hlt.
      pose proof (reflexivity (R := String.le) (ts h)) as Hr.
      unfold String.le in Hr. rewrite Hlt in Hr. exact Hr.
    + apply StronglySorted_inv in Hs as [_ Hall].
      rewrite Forall_forall in Hall. apply Hall in Hin.
      apply leb_not_older in Hin. apply ltb_not_leb in Hlt. congruence.
Qed.

(** X7. When the clock has advanced past every timestamp in the session tier,
    the record just written is the most recent one: it comes first in
    [list_recent_sessions(n)] for every [n >= 1], whether its key is new or
    overwritten. *)
Theorem just_written_comes_first k v n st :
  Dict.wf (session_memory st) ->
  (forall x, x ∈ session_memory st ->
     String.ltb (ts x) (now_isoformat w (ticks st)) = true) ->
  1 <= n ->
  head (list_recent_sessions n (after_call w (SaveSession k v) st))
  = Some (k, Entry v (now_isoformat w (ticks st))).
Proof.
  intros Hwf Hold Hn. unfold list_recent_sessions. cbv zeta.
  rewrite session_after_call, slice_to_take.
  destruct (Z.leb_spec 0 n); [|lia].
  set (e := Entry v (now_isoformat w (ticks st))).
  set (sm := Dict.set k e (session_memory st)).
  assert (Hwf' : Dict.wf sm) by (apply dict_wf_set, Hwf).
  destruct (sorted_desc_head (k, e) sm) as (rest & Hsorted).
  - apply dict_get_elem, dict_get_set_eq.
  - intros y Hy. apply dict_set_elem in Hy as [->|Hy]; [now left|].
    right. now apply Hold.
  - rewrite dict_of_items_wf by (apply take_wf, sorted_desc_keys, Hwf').
    rewrite Hsorted. destruct (Z.to_nat n) eqn:En; [lia|]. reflexivity.
Qed.

End MemoryMore.

(** ** LLMHandler *)

Section LLMMore.

(** X8. When the model answers both requests with a completion whose first
    choice carries a text, [expand_prompt] returns the stripped text of the
    first answer, the two hint mappings computed from that text as the model
    gave it, and the stripped text of the second answer; the second request is
    the first text, a newline and the fixed instruction. Nothing is logged. *)
Theorem expand_prompt_on_answers h prompt st response text tech_response tech :
  llm h (creative_request prompt) = Ok response ->
  first_choice_text response = Ok (VStr text) ->
  llm h (technical_request (text +:+ nl)) = Ok tech_response ->
  first_choice_text tech_response = Ok (VStr tech) ->
  expand_prompt h prompt st
  = (Ok (VDict
           [ ("expanded_prompt", VStr (strip text));
             ("style_hints",
               VDict [ ("lighting", _extract_lighting text);
                       ("composition", _extract_composition text) ]);
             ("technical_params", VStr (strip tech)) ]),
     with_event (EvExpand prompt) st).
Proof.
  intros H1 H2 H3 H4. rewrite expand_prompt_run.
  unfold expansion, rbind. rewrite H1, H2. simpl. rewrite H3, H4. reflexivity.
Qed.

Lemma expand_prompt_fallback h prompt st e :
  expansion h prompt = Raise e ->
  expand_prompt h prompt st
  = (Ok (fallback_expansion prompt),
     with_log (ERROR, "LLM processing error: " +:+ exn_msg e)
       (with_event (EvExpand prompt) st)).
Proof. intros H. rewrite expand_prompt_run. now rewrite H. Qed.

(** X9. An answer of the wrong shape is a failure like any other: when the
    first answer has no first choice with a text that is a string (no choices
    key, an empty list of choices, a text that is not a string, ...),
    [expand_prompt] returns the original prompt with empty hints and logs. *)
Theorem expand_prompt_on_malformed_answer h prompt st response :
  llm h (creative_request prompt) = Ok response ->
  (forall text, first_choice_text response <> Ok (VStr text)) ->
  exists e,
    expand_prompt h prompt st
    = (Ok (VDict [ ("expanded_prompt", VStr prompt);
                   ("style_hints", VDict []);
                   ("technical_params", VStr "") ]),
       with_log (ERROR, "LLM processing error: " +:+ exn_msg e)
         (with_event (EvExpand prompt) st)).
Proof.
  intros H1 Hbad.
  assert (He : exists e, expansion h prompt = Raise e).
  { unfold expansion, rbind. rewrite H1.
    destruct (first_choice_text response) as [v|e]; [|eauto].
    destruct v; simpl; eauto. now destruct (Hbad s). }
  destruct He as [e He]. exists e. now apply expand_prompt_fallback.
Qed.

(** X10. A failure of the second request throws the first answer away: when
    the technical answer is missing, or has no first choice whose text has a
    [strip] method (a [str] or a [bytes]), the result is the original prompt
    with empty hints, not the expansion already obtained. *)
Theorem expand_prompt_discards_expansion h prompt st response text :
  llm h (creative_request prompt) = Ok response ->
  first_choice_text response = Ok (VStr text) ->
  (forall tech_response v,
     llm h (technical_request (text +:+ nl)) = Ok tech_response ->
     first_choice_text tech_response = Ok v ->
     ~ has_strip v) ->
  fst (expand_prompt h prompt st)
  = Ok (VDict [ ("expanded_prompt", VStr prompt);
                ("style_hints", VDict []);
                ("technical_params", VStr "") ]).
Proof.
  intros H1 H2 Hbad.
  assert (He : exists e, expansion h prompt = Raise e).
  { unfold expansion, rbind. rewrite H1, H2. simpl.
    destruct (llm h (technical_request (text +:+ nl))) as [tr|e] eqn:H3; [|eauto].
    destruct (first_choice_text tr) as [v|e] eqn:H4; [|eauto].
    specialize (Hbad tr v eq_refl H4).
    destruct v; simpl; eauto; destruct Hbad; unfold has_strip; eauto. }
  destruct He as [e He]. now rewrite (expand_prompt_fallback _ _ _ e He).
Qed.

(** X24. A technical answer whose text is a [bytes] is not a failure: [bytes]
    has a [strip] too, and the expansion is returned with the bytes, less the
    white space of ASCII at their two ends, as its technical parameters. *)
Theorem expand_prompt_on_bytes_answer h prompt st response text tech_response b :
  llm h (creative_request prompt) = Ok response ->
  first_choice_text response = Ok (VStr text) ->
  llm h (technical_request (text +:+ nl)) = Ok tech_response ->
  first_choice_text tech_response = Ok (VBytes b) ->
  expand_prompt h prompt st
  = (Ok (VDict
           [ ("expanded_prompt", VStr (strip text));
             ("style_hints",
               VDict [ ("lighting", _extract_lighting text);
                       ("composition", _extract_composition text) ]);
             ("technical_params", VBytes (bytes_strip b)) ]),
     with_event (EvExpand prompt) st).
Proof.
  intros H1 H2 H3 H4. rewrite expand_prompt_run.
  unfold expansion, rbind. rewrite H1, H2. simpl. rewrite H3, H4. reflexivity.
Qed.

Lemma occurs_in_context term text pre post :
  occurs term text -> occurs term (pre +:+ text +:+ post).
Proof.
  intros (a & mid & b & -> & Hm).
  exists (pre +:+ a), mid, (b +:+ post). split; [|exact Hm].
  now rewrite !append_assoc.
Qed.

Lemma contains_in_context term text pre post :
  contains term (lower text) = true ->
  contains term (lower (pre +:+ text +:+ post)) = true.
Proof.
  rewrite !contains_lower_occurs. apply occurs_in_context.
Qed.

Lemma any_contains_in_context terms text pre post :
  existsb (fun x => contains x (lower text)) terms = true ->
  existsb (fun x => contains x (lower (pre +:+ text +:+ post))) terms = true.
Proof.
  rewrite !existsb_exists. intros (x & Hx & Hc).
  exists x. split; [assumption|]. now apply contains_in_context.
Qed.

Lemma primary_light_of text :
  getitem (_extract_lighting text) (IStr "primary_light")
  = Ok (VStr (if contains "sunlight" (lower text) then "natural" else "artificial")).
Proof. reflexivity. Qed.

Lemma mood_of text :
  getitem (_extract_lighting text) (IStr "mood")
  = Ok (VStr (if existsb (fun x => contains x (lower text))
                   ["bright"; "sunny"; "daylight"]
              then "bright" else "dark")).
Proof. reflexivity. Qed.

Lemma perspective_of text :
  getitem (_extract_composition text) (IStr "perspective")
  = Ok (VStr (if existsb (fun x => contains x (lower text))
                   ["panorama"; "wide"; "vast"]
              then "wide" else "close")).
Proof. reflexivity. Qed.

Lemma focus_of text :
  getitem (_extract_composition text) (IStr "focus")
  = Ok (VStr (if contains "foreground" (lower text)
              then "foreground" else "background")).
Proof. reflexivity. Qed.

(** X11. More text never takes a hint away: if a text is classified natural,
    bright, wide or foreground, so is every text that contains it. *)
Theorem hints_survive_context text pre post :
  let longer := pre +:+ text +:+ post in
  (getitem (_extract_lighting text) (IStr "primary_light") = Ok (VStr "natural") ->
   getitem (_extract_lighting longer) (IStr "primary_light") = Ok (VStr "natural"))
  /\ (getitem (_extract_lighting text) (IStr "mood") = Ok (VStr "bright") ->
      getitem (_extract_lighting longer) (IStr "mood") = Ok (VStr "bright"))
  /\ (getitem (_extract_composition text) (IStr "perspective") = Ok (VStr "wide") ->
      getitem (_extract_composition longer) (IStr "perspective") = Ok (VStr "wide"))
  /\ (getitem (_extract_composition text) (IStr "focus") = Ok (VStr "foreground") ->
      getitem (_extract_composition longer) (IStr "focus") = Ok (VStr "foreground")).
Proof.
  cbv zeta. rewrite !primary_light_of, !mood_of, !perspective_of, !focus_of.
  repeat split.
  - destruct (contains "sunlight" (lower text)) eqn:E; [|discriminate].
    intros _. now rewrite (contains_in_context _ _ pre post E).
  - destruct (existsb _ ["bright"; "sunny"; "daylight"]) eqn:E; [|discriminate].
    intros _. now rewrite (any_contains_in_context _ _ pre post E).
  - destruct (existsb _ ["panorama"; "wide"; "vast"]) eqn:E; [|discriminate].
    intros _. now rewrite (any_contains_in_context _ _ pre post E).
  - destruct (contains "foreground" (lower text)) eqn:E; [|discriminate].
    intros _. now rewrite (contains_in_context _ _ pre post E).
Qed.

End LLMMore.

(** ** Pipeline: artifacts *)

Section PipelineMore.
Variable w : World.

Section Preserves.
Variable I : State -> State -> Prop.
Hypothesis I_refl : forall st, I st st.
Hypothesis I_trans : forall a b c, I a b -> I b c -> I a c.

Lemma preserves_ret {A : Type} (a : A) : preserves I (ret a).
Proof. intros st r st' [= <- <-]. apply I_refl. Qed.

Lemma preserves_raise {A : Type} e : preserves I (raise (A := A) e).
Proof. intros st r st' [= <- <-]. apply I_refl. Qed.

Lemma preserves_lift {A : Type} (x : res A) : preserves I (lift x).
Proof. intros st r st' [= <- <-]. apply I_refl. Qed.

Lemma preserves_bind {A B : Type} (m : M A) (f : A -> M B) :
  preserves I m -> (forall a, preserves I (f a)) -> preserves I (bind m f).
Proof.
  intros Hm Hf st r st' H. unfold bind in H.
  destruct (m st) as [[a|e] st1] eqn:E.
  - eapply I_trans; [eapply Hm; eauto | eapply Hf; eauto].
  - injection H as <- <-. eapply Hm; eauto.
Qed.

Lemma preserves_try_except {A : Type} (m : M A) (h : exn -> M A) :
  preserves I m -> (forall e, preserves I (h e)) -> preserves I (try_except m h).
Proof.
  intros Hm Hh st r st' H. unfold try_except in H.
  destruct (m st) as [[a|e] st1] eqn:E.
  - injection H as <- <-. eapply Hm; eauto.
  - eapply I_trans; [eapply Hm; eauto | eapply Hh; eauto].
Qed.

Lemma preserves_modify (f : State -> State) :
  (forall st, I st (f st)) -> preserves I (modify f).
Proof. intros Hf st r st' [= <- <-]. apply Hf. Qed.
End Preserves.

Lemma files_kept_refl st : files_kept st st.
Proof. intros p c H. exact H. Qed.

Lemma files_kept_trans a b c : files_kept a b -> files_kept b c -> files_kept a c.
Proof. intros H1 H2 p x H. apply H2, H1, H. Qed.

Lemma files_kept_same st st' : files st' = files st -> files_kept st st'.
Proof. intros H p c. now rewrite H. Qed.

Lemma files_kept_insert st st' p b :
  files st !! p = None -> files st' = <[p := b]> (files st) -> files_kept st st'.
Proof.
  intros Hfresh Hf q c Hq. rewrite Hf. rewrite lookup_insert_ne; [exact Hq|].
  intros <-. congruence.
Qed.

Lemma save_temp_keeps_files suffix what payload :
  preserves files_kept (save_temp w suffix what payload).
Proof.
  intros st r st'. rewrite save_temp_run. cbv zeta.
  destruct (mkstemp_inner w suffix TMP_MAX st) as [[tmp|e] st1] eqn:E1;
    apply mkstemp_inner_spec in E1 as (_ & _ & H1).
  2:{ intros [= <- <-]. apply files_kept_same. simpl. exact H1. }
  destruct H1 as (_ & Hfresh & _ & Hf).
  destruct (payload_bytes w payload) as [b|e].
  2:{ intros [= <- <-]. eapply files_kept_insert; eauto. }
  destruct (write_error w tmp b).
  { intros [= <- <-]. eapply files_kept_insert; eauto. }
  intros [= <- <-]. apply (files_kept_insert st _ tmp b Hfresh).
  simpl. rewrite Hf. apply insert_insert_eq.
Qed.

Lemma recorded_keeps_files suffix m :
  preserves files_kept m -> preserves files_kept (recorded suffix m).
Proof.
  intros Hm st r st'. rewrite recorded_spec. intros [= <- <-].
  intros p c Hp. simpl. eapply Hm; eauto. apply surjective_pairing.
Qed.

(** X12. The artifact store never touches a file that exists: whether an
    operation returns or raises, every path that was there before holds the
    content it held. *)
Theorem artifact_store_keeps_files :
  (forall payload, preserves files_kept (_save_temp_image w payload))
  /\ (forall payload, preserves files_kept (_save_temp_model w payload)).
Proof.
  split; intros payload; apply recorded_keeps_files, save_temp_keeps_files.
Qed.

(** X13. No cleanup on failure: the temporary file is created before the
    payload is looked at, so a text that does not decode leaves an empty file
    behind under the name that was drawn, and the decoder's exception goes to
    the caller after one log record. *)
Theorem failed_decode_leaves_empty_file s e st :
  let path := candidate w ".png" (draws st) in
  b64decode w s = Raise e ->
  files st !! path = None ->
  open_error w path = None ->
  exists st',
    _save_temp_image w (VStr s) st = (Raise e, st')
    /\ files st' = <[path := []]> (files st)
    /\ log st' = log st ++ [(ERROR, "Error saving image: " +:+ exn_msg e)].
Proof.
  cbv zeta. intros Hb Hf Ho. eexists.
  unfold _save_temp_image. rewrite recorded_spec, save_temp_run. cbv zeta.
  rewrite TMP_MAX_succ.
  rewrite mkstemp_inner_first by assumption. simpl. rewrite Hb. simpl.
  repeat split.
Qed.

Lemma store_ok suffix what payload st path st' :
  recorded suffix (save_temp w suffix what payload) st = (Ok path, st') ->
  files st !! path = None
  /\ has_suffix suffix path
  /\ exists b, payload_bytes w payload = Ok b
               /\ files st' = <[path := b]> (files st).
Proof.
  rewrite recorded_spec.
  destruct (save_temp w suffix what payload st) as [r st1] eqn:E.
  apply save_temp_spec in E as [_ E]. simpl. intros [= -> <-].
  destruct E as (_ & Hf & Hs & _ & b & Hb & _ & Hfiles). eauto 10.
Qed.

(** X14. Locators are not reused and artifacts are not overwritten: when the
    image of a run has been stored and then its model, the two locators
    differ, and the image file still holds the bytes of the image payload. *)
Theorem image_then_model_distinct image model st p1 st1 p2 st2 :
  _save_temp_image w image st = (Ok p1, st1) ->
  files_kept st1 st2 ->
  forall st3, _save_temp_model w model st2 = (Ok p2, st3) ->
  p1 <> p2
  /\ exists b, payload_bytes w image = Ok b /\ files st3 !! p1 = Some b.
Proof.
  intros H1 Hk st3 H2.
  apply store_ok in H1 as (_ & _ & b1 & Hb1 & Hf1).
  apply store_ok in H2 as (Hfresh & _ & b2 & _ & Hf2).
  assert (Hp1 : files st2 !! p1 = Some b1).
  { apply Hk. rewrite Hf1. apply lookup_insert_eq. }
  assert (Hne : p1 <> p2) by (intros ->; congruence).
  split; [exact Hne|]. exists b1. split; [exact Hb1|].
  rewrite Hf2. rewrite lookup_insert_ne; [exact Hp1 | congruence].
Qed.

(** ** Pipeline: runs *)

(** X15. [process] never raises: every run returns a mapping, which is either
    the success result or the error result for the given session id, and a
    run that returns the error result has logged the message it returns. *)
Theorem process_never_raises p prompt stub sid st :
  exists v st',
    process w p prompt stub sid st = (Ok v, st')
    /\ (is_success_result v sid
        \/ exists e,
             v = VDict [ ("status", VStr "error");
                         ("error", VStr (exn_msg e));
                         ("session_id", VStr sid) ]
             /\ last (log st') = Some (ERROR, "Pipeline error: " +:+ exn_msg e)).
Proof.
  destruct (process w p prompt stub sid st) as [r st'] eqn:H.
  pose proof (process_outcome w _ _ _ _ _ _ _ H) as (evs & _ & _ & _ & Hr).
  destruct Hr as [(e & stb & _ & -> & Hlog & _) | Hr].
  - exists (error_result e sid), st'. split; [reflexivity|]. right.
    exists e. split; [reflexivity|]. rewrite Hlog. apply last_snoc.
  - destruct Hr as (x & ip & mp & ? & ? & ? & ? & ? & ? & ? & Hx & -> & _).
    eexists _, st'. split; [reflexivity|]. left. exists x, ip, mp. auto.
Qed.

Lemma prefix_not_elem {A : Type} (x : A) (l1 l2 : list A) :
  l1 `prefix_of` l2 -> x ∉ l2 -> x ∉ l1.
Proof. intros [k ->] H Hin. apply H, elem_of_app. now left. Qed.

Lemma process_footprint p prompt stub sid st r st' :
  process w p prompt stub sid st = (r, st') ->
  (forall k, k ∉ [prompt_key sid; image_key sid; model_key sid] ->
     Dict.get k (session_memory st') = Dict.get k (session_memory st))
  /\ (forall k, k <> creation_key sid -> db st' !! k = db st !! k).
Proof.
  intros H. apply process_outcome in H as (evs & _ & Hp & Hs & Hr). split.
  - intros k Hk. rewrite Hs. apply replay_get_other.
    eapply prefix_not_elem; [eapply session_keys_prefix; eauto | exact Hk].
  - intros k Hk.
    destruct Hr as [(? & ? & _ & _ & _ & -> & _) | Hr]; [reflexivity|].
    destruct Hr as (? & ? & ? & ? & ? & ? & ? & ? & ? & ? & _ & _ & _ & _ & _ & _ & ->).
    apply lookup_insert_ne. congruence.
Qed.

Lemma key_prefix_differs (a b : ascii) pa pb s s' :
  a <> b -> String a pa +:+ s <> String b pb +:+ s'.
Proof. intros Hne H. rewrite !append_cons in H. congruence. Qed.

Lemma key_same_prefix pre s s' : s <> s' -> pre +:+ s <> pre +:+ s'.
Proof. intros Hne H. apply Hne. eapply (inj (String.app pre)). exact H. Qed.

(** X16. Runs do not interfere through the store: a run for one session id
    leaves the three session records and the durable record of every other
    session id exactly as they were, however the run ends. *)
Theorem runs_do_not_interfere p prompt stub sid sid' st r st' :
  sid' <> sid ->
  process w p prompt stub sid st = (r, st') ->
  get_session (prompt_key sid') st' = get_session (prompt_key sid') st
  /\ get_session (image_key sid') st' = get_session (image_key sid') st
  /\ get_session (model_key sid') st' = get_session (model_key sid') st
  /\ get_persistent (creation_key sid') st' = get_persistent (creation_key sid') st.
Proof.
  intros Hne H. apply process_footprint in H as [Hs Hd].
  unfold get_session, get_persistent.
  rewrite Hd by (now apply key_same_prefix).
  rewrite !Hs; [auto| | |];
    rewrite !not_elem_of_cons; repeat split; try apply not_elem_of_nil;
    unfold prompt_key, image_key, model_key;
    first [ now apply key_same_prefix | apply key_prefix_differs; discriminate ].
Qed.

(** X17. After a successful run the durable record is the three session
    records put together: what [get_persistent] returns under
    creation_<session_id> is the mapping of prompt, image and model to what
    [get_session] returns under prompt_, image_ and model_<session_id>. *)
Theorem durable_record_is_the_session_records p prompt stub sid st v st' :
  process w p prompt stub sid st = (Ok v, st') ->
  is_success_result v sid ->
  get_persistent (creation_key sid) st'
  = VDict [ ("prompt", get_session (prompt_key sid) st');
            ("image", get_session (image_key sid) st');
            ("model", get_session (model_key sid) st') ].
Proof.
  intros H (x & ip & mp & _ & ->).
  apply process_outcome in H as (evs & _ & Hp & Hs & Hr).
  destruct Hr as [(? & ? & _ & [=] & _) | Hr].
  destruct Hr as (? & ? & ? & pr & ir & mr & t1 & t2 & t3 & t4
                  & _ & _ & _ & _ & _ & Hw & Hd).
  unfold get_persistent, get_session. rewrite Hd, lookup_insert_eq, Hs.
  rewrite (session_writes_remain p sid evs _ (prompt_key sid) (Entry pr t1) Hp)
    by (rewrite Hw, !elem_of_cons; eauto).
  rewrite (session_writes_remain p sid evs _ (image_key sid) (Entry ir t2) Hp)
    by (rewrite Hw, !elem_of_cons; eauto).
  rewrite (session_writes_remain p sid evs _ (model_key sid) (Entry mr t3) Hp)
    by (rewrite Hw, !elem_of_cons; eauto).
  reflexivity.
Qed.

Lemma keeps_files_bind {A B : Type} (m : M A) (f : A -> M B) :
  preserves files_kept m -> (forall a, preserves files_kept (f a)) ->
  preserves files_kept (bind m f).
Proof. apply preserves_bind, files_kept_trans. Qed.

Lemma keeps_files_try {A : Type} (m : M A) (h : exn -> M A) :
  preserves files_kept m -> (forall e, preserves files_kept (h e)) ->
  preserves files_kept (try_except m h).
Proof. apply preserves_try_except, files_kept_trans. Qed.

Lemma keeps_files_same {A : Type} (m : M A) :
  (forall st r st', m st = (r, st') -> files st' = files st) ->
  preserves files_kept m.
Proof. intros H st r st' E. apply files_kept_same. eapply H; eauto. Qed.

Lemma files_save_session k d st r st' :
  save_session w k d st = (r, st') -> files st' = files st.
Proof. rewrite save_session_run. now intros [= <- <-]. Qed.

Lemma files_save_persistent k d st r st' :
  save_persistent w k d st = (r, st') -> files st' = files st.
Proof.
  rewrite save_persistent_run. cbv zeta.
  destruct (db_error w k _); now intros [= <- <-].
Qed.

Lemma files_stub_call stub a rq sid st r st' :
  stub_call stub a rq sid st = (r, st') -> files st' = files st.
Proof. unfold stub_call. now intros [= <- <-]. Qed.

Lemma files_llm_expand p prompt st r st' :
  llm_expand_prompt p prompt st = (r, st') -> files st' = files st.
Proof.
  unfold llm_expand_prompt. destruct (p_llm p) as [h|].
  - rewrite expand_prompt_run. destruct (expansion h prompt); now intros [= <- <-].
  - now intros [= <- <-].
Qed.

Lemma files_logging_error msg st r st' :
  logging_error msg st = (r, st') -> files st' = files st.
Proof. now intros [= <- <-]. Qed.

Ltac keeps_files :=
  repeat first
    [ apply keeps_files_same; intros ? ? ?;
      first [ apply files_save_session | apply files_save_persistent
            | apply files_stub_call | apply files_llm_expand
            | apply files_logging_error ]
    | apply recorded_keeps_files, save_temp_keeps_files
    | apply (preserves_ret files_kept files_kept_refl)
    | apply (preserves_lift files_kept files_kept_refl)
    | apply keeps_files_try; [|intros ?]
    | apply keeps_files_bind; [|intros ?] ].

Lemma process_files_kept p prompt stub sid :
  preserves files_kept (process w p prompt stub sid).
Proof. unfold process, process_body, subscript. keeps_files. Qed.

(** X18. The files a run finds: however the run ends, every artifact and
    every other file that existed before it, the database file of the durable
    tier apart, holds the content it held, none being overwritten or removed;
    the database file is the one file a run rewrites, and in it every record
    but the creation record of the run's own session is as it was. *)
Theorem process_keeps_files p prompt stub sid :
  preserves (existing_files_kept sid) (process w p prompt stub sid).
Proof.
  intros st r st' E. split.
  - eapply process_files_kept, E.
  - eapply process_footprint, E.
Qed.

Lemma llm_expand_ok p prompt st v st1 :
  llm_expand_prompt p prompt st = (Ok v, st1) -> is_expansion v.
Proof.
  unfold llm_expand_prompt. destruct (p_llm p) as [h|]; [|discriminate].
  rewrite expand_prompt_run. destruct (expansion h prompt) eqn:E; intros [= <- _].
  - eapply expansion_shape; eauto.
  - apply fallback_shape.
Qed.

Lemma stub_call_ok stub a rq sid st x st1 :
  stub_call stub a rq sid st = (Ok x, st1) -> call stub a rq sid = Ok x.
Proof. unfold stub_call. now intros [= -> _]. Qed.

(** X19. What a successful run did: it sent the expanded prompt to the image
    service and the stored image's locator with the technical parameters to
    the model service; the locators it returns end in .png and .glb and
    differ; and when it returns, the two files hold the bytes of the payloads
    the services answered with, base64-decoded where they were text. *)
Theorem successful_run_anatomy p prompt stub sid st v st' :
  process w p prompt stub sid st = (Ok v, st') ->
  is_success_result v sid ->
  exists expanded_prompt style_hints technical_params
         img_result image img_path model_result model model_path,
    v = success_result
          (VDict [ ("expanded_prompt", expanded_prompt);
                   ("style_hints", style_hints);
                   ("technical_params", technical_params) ])
          img_path model_path sid
    /\ call stub (text2img_id p) (VDict [("prompt", expanded_prompt)]) sid
       = Ok img_result
    /\ getitem img_result (IStr "image") = Ok image
    /\ call stub (img2_3d_id p)
         (VDict [("image", VStr img_path); ("params", technical_params)]) sid
       = Ok model_result
    /\ getitem model_result (IStr "model") = Ok model
    /\ has_suffix ".png" img_path /\ has_suffix ".glb" model_path
    /\ img_path <> model_path
    /\ (exists b, payload_bytes w image = Ok b /\ files st' !! img_path = Some b)
    /\ (exists b, payload_bytes w model = Ok b /\ files st' !! model_path = Some b).
Proof.
  intros H Hsucc. apply process_run in H as (rb & stb & H & Hrb).
  destruct rb as [v0|e]; [|destruct Hrb as [[= ->] _];
                           destruct Hsucc as (? & ? & ? & _ & [=])].
  destruct Hrb as [[= ->] ->]. clear Hsucc. unfold process_body in H.
  apply bind_inv in H as [(expanded & s1 & E & H) | (? & _ & [=])].
  pose proof (files_llm_expand _ _ _ _ _ E) as F1.
  apply llm_expand_ok in E as (ep & sh & tp & ->).
  apply bind_inv in H as [([] & s2 & E & H) | (? & _ & [=])].
  apply files_save_session in E; rename E into F2.
  apply bind_inv in H as [(ep' & s3 & E & H) | (? & _ & [=])].
  apply step_subscript in E as [[= ->] ->].
  apply bind_inv in H as [(img_result & s3 & E & H) | (? & _ & [=])].
  pose proof (files_stub_call _ _ _ _ _ _ _ E) as F3.
  apply stub_call_ok in E; rename E into Hcall1.
  apply bind_inv in H as [(image & s4 & E & H) | (? & _ & [=])].
  apply step_subscript in E as [Himage ->].
  apply bind_inv in H as [(img_path & s4 & E & H) | (? & _ & [=])].
  apply store_ok in E as (Hfresh1 & Hsuf1 & b1 & Hb1 & F4).
  apply bind_inv in H as [(sh' & s5 & E & H) | (? & _ & [=])].
  apply step_subscript in E as [[= ->] ->].
  apply bind_inv in H as [([] & s5 & E & H) | (? & _ & [=])].
  apply files_save_session in E; rename E into F5.
  apply bind_inv in H as [(tp' & s6 & E & H) | (? & _ & [=])].
  apply step_subscript in E as [[= ->] ->].
  apply bind_inv in H as [(model_result & s6 & E & H) | (? & _ & [=])].
  pose proof (files_stub_call _ _ _ _ _ _ _ E) as F6.
  apply stub_call_ok in E; rename E into Hcall2.
  apply bind_inv in H as [(model & s7 & E & H) | (? & _ & [=])].
  apply step_subscript in E as [Hmodel ->].
  apply bind_inv in H as [(model_path & s7 & E & H) | (? & _ & [=])].
  apply store_ok in E as (Hfresh2 & Hsuf2 & b2 & Hb2 & F7).
  apply bind_inv in H as [(metadata & s8 & E & H) | (? & _ & [=])].
  apply step_lift in E as [_ ->].
  apply bind_inv in H as [([] & s8 & E & H) | (? & _ & [=])].
  apply files_save_session in E; rename E into F8.
  apply bind_inv in H as [(sh'' & s9 & E & H) | (? & _ & [=])].
  apply step_subscript in E as [_ ->].
  apply bind_inv in H as [(metadata' & s9 & E & H) | (? & _ & [=])].
  apply step_lift in E as [_ ->].
  apply bind_inv in H as [([] & s9 & E & H) | (? & _ & [=])].
  apply files_save_persistent in E; rename E into F9.
  unfold ret in H. injection H as <- <-.
  assert (Himg : files s6 !! img_path = Some b1).
  { rewrite F6, F5, F4. apply lookup_insert_eq. }
  assert (Hne : img_path <> model_path) by (intros ->; congruence).
  exists ep, sh, tp, img_result, image, img_path, model_result, model, model_path.
  split; [reflexivity|]. split; [exact Hcall1|]. split; [now symmetry|].
  split; [exact Hcall2|]. split; [now symmetry|].
  split; [exact Hsuf1|]. split; [exact Hsuf2|]. split; [exact Hne|]. split.
  - exists b1. split; [exact Hb1|]. rewrite F9, F8, F7.
    rewrite lookup_insert_ne by congruence. exact Himg.
  - exists b2. split; [exact Hb2|]. rewrite F9, F8, F7. apply lookup_insert_eq.
Qed.

End PipelineMore.

(** ** main.py *)

Section MainMore.
Variable w : World.

(** X20. A pipeline built without a model is never repaired. When the model
    file appears later and [config] runs again, the model is loaded into the
    module-level handler, but the pipeline is the object built before and
    still holds no handler: every run of it goes on returning the error
    result. *)
Theorem late_model_is_not_picked_up g p model st :
  llm_handler g = None -> pipeline g = Some p -> p_llm p = None ->
  path_exists w (llm_model_path w) = true ->
  load_llama w (llm_model_path w) = Ok model ->
  exists g',
    config w g st = (Ok g', st)
    /\ llm_handler g' = Some {| llm := model |}
    /\ pipeline g' = Some p
    /\ forall prompt stub sid st1,
         fst (process w p prompt stub sid st1)
         = Ok (VDict
                 [ ("status", VStr "error");
                   ("error",
                     VStr "'NoneType' object has no attribute 'expand_prompt'");
                   ("session_id", VStr sid) ]).
Proof.
  destruct g as [gh gp]. simpl. intros -> -> Hp Hex Hload.
  eexists. unfold config, LLMHandler_init. simpl. rewrite Hex, Hload. simpl.
  split; [reflexivity|]. split; [reflexivity|]. split; [reflexivity|].
  intros prompt stub sid st1.
  unfold process, try_except, process_body, bind, llm_expand_prompt.
  rewrite Hp. reflexivity.
Qed.

(** X21. Only a missing file is tolerated. When the file exists and the loader
    raises anything but a FileNotFoundError, [config] raises that exception
    and creates no pipeline. *)
Theorem config_propagates_loader_errors e st :
  path_exists w (llm_model_path w) = true ->
  load_llama w (llm_model_path w) = Raise e ->
  exn_class e <> "FileNotFoundError" ->
  config w no_handlers st = (Raise e, st).
Proof.
  intros Hex Hload Hcls. unfold config, no_handlers, LLMHandler_init. simpl.
  rewrite Hex, Hload. simpl. apply String.eqb_neq in Hcls. rewrite Hcls.
  reflexivity.
Qed.

Section ExecuteFacts.
Variable host : Host.

Lemma execute_run g configurations request_prompt st :
  execute w host g configurations request_prompt st
  = match request_prompt with
    | None | Some EmptyString => (Ok "Error: No prompt provided", st)
    | Some _ =>
        match Dict.get "super-user" configurations with
        | None => (Ok "Error: No valid configuration found", st)
        | Some user_config =>
            match app_ids user_config with
            | [] => (Ok "Error: No valid configuration found", st)
            | _ :: _ =>
                match make_stub host (app_ids user_config) with
                | Raise e => (Raise e, st)
                | Ok _ =>
                    let msg :=
                      match pipeline g with
                      | Some _ => "'coroutine' object is not subscriptable"
                      | None => "'NoneType' object has no attribute 'process'"
                      end in
                    (Ok ("Error processing request: " +:+ msg),
                     with_log (ERROR, "Pipeline execution error: " +:+ msg) st)
                end
            end
        end
    end.
Proof.
  unfold execute.
  destruct request_prompt as [[|c prompt]|]; try reflexivity.
  destruct (Dict.get "super-user" configurations) as [user_config|];
    [|reflexivity].
  destruct (app_ids user_config) as [|a ids]; [reflexivity|].
  unfold bind at 1, lift at 1.
  destruct (make_stub host (a :: ids)) as [stub|e]; [|reflexivity].
  unfold try_except, bind, ret, raise, lift, logging_error, modify.
  now destruct (pipeline g).
Qed.

(** X22. [execute] never runs the pipeline. It calls [process], which is a
    coroutine function, without awaiting it, and subscripts the coroutine
    object it gets: no stage runs, so no session record, durable record or
    file is written and no service is called, and the message of the response
    is always one of four error messages, never the success text. *)
Theorem execute_never_runs_the_pipeline g configurations request_prompt st r st' :
  execute w host g configurations request_prompt st = (r, st') ->
  session_memory st' = session_memory st
  /\ db st' = db st
  /\ files st' = files st
  /\ trace st' = trace st
  /\ forall message,
       r = Ok message ->
       message ∈ [ "Error: No prompt provided";
                   "Error: No valid configuration found";
                   "Error processing request: 'coroutine' object is not subscriptable";
                   "Error processing request: 'NoneType' object has no attribute 'process'" ].
Proof.
  rewrite execute_run.
  destruct request_prompt as [[|c prompt]|];
    try (intros [= <- <-]; repeat split; intros m [= <-];
         rewrite !elem_of_cons; auto; fail).
  destruct (Dict.get "super-user" configurations) as [user_config|];
    [|intros [= <- <-]; repeat split; intros m [= <-];
      rewrite !elem_of_cons; auto].
  destruct (app_ids user_config) as [|a ids];
    [intros [= <- <-]; repeat split; intros m [= <-];
     rewrite !elem_of_cons; auto|].
  destruct (make_stub host (a :: ids)) as [stub|e];
    [|intros [= <- <-]; repeat split; discriminate].
  cbv zeta. intros [= <- <-]. repeat split. intros m [= <-].
  rewrite !elem_of_cons. destruct (pipeline g); auto.
Qed.

(** X23. A request that is in order fails all the same: with a prompt, a
    configuration for super-user with application ids, a stub that builds and
    a pipeline in place, the response says that a coroutine object is not
    subscriptable, and that is logged as a pipeline execution error. *)
Theorem execute_valid_request_fails g configurations c prompt user_config stub p st :
  Dict.get "super-user" configurations = Some user_config ->
  app_ids user_config <> [] ->
  make_stub host (app_ids user_config) = Ok stub ->
  pipeline g = Some p ->
  execute w host g configurations (Some (String c prompt)) st
  = (Ok "Error processing request: 'coroutine' object is not subscriptable",
     with_log
       (ERROR, "Pipeline execution error: 'coroutine' object is not subscriptable")
       st).
Proof.
  intros Hc Hids Hstub Hp. rewrite execute_run, Hc.
  destruct (app_ids user_config) as [|a ids]; [congruence|].
  rewrite Hstub, Hp. reflexivity.
Qed.

End ExecuteFacts.
End MainMore.

(** * The further properties at work in the concrete environment *)

Lemma save_session_last_write_wins_witness :
  Dict.get "a" (session_memory one_write)
  = Some (Entry (VInt 1) "2024-05-01T10:00:00")
  /\ Dict.keys (session_memory (after_call demo_world (SaveSession "a" (VInt 7)) one_write))
     = Dict.keys (session_memory one_write).
Proof.
  split; [reflexivity|].
  refine (proj1 (proj2 (save_session_last_write_wins demo_world "a" (VInt 7)
                          one_write (Entry (VInt 1) "2024-05-01T10:00:00") _))).
  reflexivity.
Defined.

Lemma persistent_read_after_calls_witness :
  save_persistent demo_world "k" (VInt 5) demo_state
  = (Ok tt, snd (save_persistent demo_world "k" (VInt 5) demo_state))
  /\ get_persistent "k"
       (after_calls demo_world
          [ClearSession; SavePersistent "other" (VInt 6); SaveSession "k" VNone]
          (snd (save_persistent demo_world "k" (VInt 5) demo_state)))
     = VInt 5.
Proof.
  split; [vm_compute; reflexivity|].
  apply (persistent_read_after_calls demo_world "k" (VInt 5)
           [ClearSession; SavePersistent "other" (VInt 6); SaveSession "k" VNone]
           demo_state).
  - vm_compute. reflexivity.
  - reflexivity.
Defined.

Lemma list_recent_sessions_negative_witness :
  Dict.wf (session_memory three_writes) /\ -1 < 0
  /\ length (list_recent_sessions (-1) three_writes)
     = Z.to_nat (Z.of_nat (length (session_memory three_writes)) + -1).
Proof.
  split; [exact three_writes_wf|]. split; [lia|].
  refine (proj1 (list_recent_sessions_negative (-1) three_writes three_writes_wf _)).
  lia.
Defined.

Lemma list_recent_sessions_agrees_witness :
  Dict.wf (session_memory three_writes)
  /\ Dict.wf (list_recent_sessions 2 three_writes).
Proof.
  split; [exact three_writes_wf|].
  exact (proj1 (list_recent_sessions_agrees 2 three_writes three_writes_wf)).
Defined.

Lemma list_recent_sessions_all_stable_witness :
  Dict.wf (session_memory three_writes)
  /\ Z.of_nat (length (session_memory three_writes)) <= 5
  /\ list_recent_sessions 5 three_writes ≡ₚ session_memory three_writes.
Proof.
  split; [exact three_writes_wf|]. split; [vm_compute; discriminate|].
  refine (proj1 (list_recent_sessions_all_stable 5 three_writes three_writes_wf _)).
  vm_compute. discriminate.
Defined.

Lemma one_write_wf : Dict.wf (session_memory one_write).
Proof. unfold Dict.wf. apply (bool_decide_unpack _). vm_compute. exact I. Defined.

Lemma just_written_comes_first_witness :
  Dict.wf (session_memory one_write) /\ 1 <= 3
  /\ head (list_recent_sessions 3
             (after_call demo_world (SaveSession "b" (VInt 2)) one_write))
     = Some ("b", Entry (VInt 2) (now_isoformat demo_world (ticks one_write))).
Proof.
  split; [exact one_write_wf|]. split; [lia|].
  apply (just_written_comes_first demo_world "b" (VInt 2) 3 one_write one_write_wf);
    [|lia].
  intros x Hx. vm_compute in Hx. apply list_elem_of_singleton in Hx. subst x.
  vm_compute. reflexivity.
Defined.

Lemma expand_prompt_on_answers_witness :
  llm demo_handler (creative_request "a castle")
  = Ok (VDict [("choices",
                VList [VDict [("text",
                               VStr " A castle in bright SUNLIGHT, wide view ")]])])
  /\ fst (expand_prompt demo_handler "a castle" demo_state)
     = Ok (VDict
             [ ("expanded_prompt",
                 VStr (strip " A castle in bright SUNLIGHT, wide view "));
               ("style_hints",
                 VDict [ ("lighting",
                           _extract_lighting " A castle in bright SUNLIGHT, wide view ");
                         ("composition",
                           _extract_composition
                             " A castle in bright SUNLIGHT, wide view ") ]);
               ("technical_params", VStr (strip " low-poly, stone ")) ]).
Proof.
  split; [reflexivity|].
  rewrite (expand_prompt_on_answers demo_handler "a castle" demo_state
             (VDict [("choices",
                      VList [VDict [("text",
                                     VStr " A castle in bright SUNLIGHT, wide view ")]])])
             " A castle in bright SUNLIGHT, wide view "
             (VDict [("choices", VList [VDict [("text", VStr " low-poly, stone ")]])])
             " low-poly, stone ");
    reflexivity.
Defined.

Lemma expand_prompt_on_malformed_answer_witness :
  llm mute_handler (creative_request "a castle") = Ok (VDict [("choices", VList [])])
  /\ exists e,
       expand_prompt mute_handler "a castle" demo_state
       = (Ok (VDict [ ("expanded_prompt", VStr "a castle");
                      ("style_hints", VDict []);
                      ("technical_params", VStr "") ]),
          with_log (ERROR, "LLM processing error: " +:+ exn_msg e)
            (with_event (EvExpand "a castle") demo_state)).
Proof.
  split; [reflexivity|].
  apply (expand_prompt_on_malformed_answer mute_handler "a castle" demo_state
           (VDict [("choices", VList [])])); [reflexivity|].
  intros text. vm_compute. discriminate.
Defined.

Lemma expand_prompt_discards_expansion_witness :
  first_choice_text
    (VDict [("choices", VList [VDict [("text", VStr "a tall castle")]])])
  = Ok (VStr "a tall castle")
  /\ fst (expand_prompt half_mute_handler "a castle" demo_state)
     = Ok (VDict [ ("expanded_prompt", VStr "a castle");
                   ("style_hints", VDict []);
                   ("technical_params", VStr "") ]).
Proof.
  split; [reflexivity|].
  apply (expand_prompt_discards_expansion half_mute_handler "a castle" demo_state
           (VDict [("choices", VList [VDict [("text", VStr "a tall castle")]])])
           "a tall castle"); [reflexivity | reflexivity |].
  intros tech_response tech H. vm_compute in H. injection H as <-.
  vm_compute. discriminate.
Defined.

Lemma expand_prompt_on_bytes_answer_witness :
  first_choice_text
    (VDict [("choices",
             VList [VDict [("text", VBytes [Byte.x20; Byte.x6c; Byte.x6f; Byte.x0a])]])])
  = Ok (VBytes [Byte.x20; Byte.x6c; Byte.x6f; Byte.x0a])
  /\ fst (expand_prompt bytes_handler "a castle" demo_state)
     = Ok (VDict
             [ ("expanded_prompt", VStr "a tall castle");
               ("style_hints",
                 VDict
                   [ ("lighting",
                       VDict [ ("primary_light", VStr "artificial");
                               ("mood", VStr "dark") ]);
                     ("composition",
                       VDict [ ("perspective", VStr "close");
                               ("focus", VStr "background") ]) ]);
               ("technical_params", VBytes [Byte.x6c; Byte.x6f]) ]).
Proof.
  split; [reflexivity|].
  rewrite (expand_prompt_on_bytes_answer bytes_handler "a castle" demo_state
             (VDict [("choices", VList [VDict [("text", VStr "a tall castle")]])])
             "a tall castle"
             (VDict [("choices",
                      VList [VDict [("text",
                                     VBytes [Byte.x20; Byte.x6c; Byte.x6f; Byte.x0a])]])])
             [Byte.x20; Byte.x6c; Byte.x6f; Byte.x0a]);
    reflexivity.
Defined.

Lemma failed_decode_leaves_empty_file_witness :
  b64decode demo_world "a" = Raise (Exn "Error" "Incorrect padding")
  /\ exists st',
       _save_temp_image demo_world (VStr "a") demo_state
       = (Raise (Exn "Error" "Incorrect padding"), st')
       /\ files st' = <[candidate demo_world ".png" 0 := []]> (files demo_state).
Proof.
  split; [reflexivity|].
  destruct (failed_decode_leaves_empty_file demo_world "a"
              (Exn "Error" "Incorrect padding") demo_state)
    as (st' & H & Hf & _); [reflexivity | reflexivity | reflexivity |].
  exists st'. split; assumption.
Defined.

Lemma image_then_model_distinct_witness :
  _save_temp_image demo_world (VStr "aGk=") demo_state
  = (Ok "/tmp/tmpa0.png", snd (_save_temp_image demo_world (VStr "aGk=") demo_state))
  /\ "/tmp/tmpa0.png" <> "/tmp/tmpa1.glb".
Proof.
  split; [vm_compute; reflexivity|].
  refine (proj1 (image_then_model_distinct demo_world (VStr "aGk=")
                   (VBytes [Byte.x67]) demo_state "/tmp/tmpa0.png"
                   (snd (_save_temp_image demo_world (VStr "aGk=") demo_state))
                   "/tmp/tmpa1.glb"
                   (snd (_save_temp_image demo_world (VStr "aGk=") demo_state))
                   _ _
                   (snd (_save_temp_model demo_world (VBytes [Byte.x67])
                           (snd (_save_temp_image demo_world (VStr "aGk=") demo_state))))
                   _)).
  - vm_compute. reflexivity.
  - intros p c H. exact H.
  - vm_compute. reflexivity.
Defined.

Lemma runs_do_not_interfere_witness :
  "s1" <> "s2"
  /\ failed_run = (fst failed_run, snd failed_run)
  /\ get_persistent (creation_key "s1") (snd failed_run)
     = get_persistent (creation_key "s1") demo_state.
Proof.
  split; [discriminate|]. split; [vm_compute; reflexivity|].
  refine (proj2 (proj2 (proj2 (runs_do_not_interfere demo_world
            (pipeline_with (Some demo_handler)) "a castle at sunset" failing_stub
            "s2" "s1" demo_state (fst failed_run) (snd failed_run) _ _)))).
  - discriminate.
  - vm_compute. reflexivity.
Defined.

Lemma demo_result_success : is_success_result demo_result "s1".
Proof. do 3 eexists. split; [|reflexivity]. do 3 eexists. reflexivity. Defined.

Lemma durable_record_is_the_session_records_witness :
  demo_run = (Ok demo_result, snd demo_run)
  /\ is_success_result demo_result "s1"
  /\ get_persistent (creation_key "s1") (snd demo_run)
     = VDict [ ("prompt", get_session (prompt_key "s1") (snd demo_run));
               ("image", get_session (image_key "s1") (snd demo_run));
               ("model", get_session (model_key "s1") (snd demo_run)) ].
Proof.
  split; [vm_compute; reflexivity|]. split; [exact demo_result_success|].
  apply (durable_record_is_the_session_records demo_world
           (pipeline_with (Some demo_handler)) "a castle at sunset" demo_stub "s1"
           demo_state demo_result (snd demo_run)).
  - vm_compute. reflexivity.
  - exact demo_result_success.
Defined.

Lemma successful_run_anatomy_witness :
  demo_run = (Ok demo_result, snd demo_run)
  /\ is_success_result demo_result "s1"
  /\ exists img_path model_path,
       has_suffix ".png" img_path /\ has_suffix ".glb" model_path
       /\ img_path <> model_path.
Proof.
  split; [vm_compute; reflexivity|]. split; [exact demo_result_success|].
  destruct (successful_run_anatomy demo_world
              (pipeline_with (Some demo_handler)) "a castle at sunset" demo_stub "s1"
              demo_state demo_result (snd demo_run))
    as (_ & _ & _ & _ & _ & ip & _ & _ & mp & _ & _ & _ & _ & _ & H1 & H2 & H3 & _).
  - vm_compute. reflexivity.
  - exact demo_result_success.
  - exists ip, mp. auto.
Defined.

Lemma late_model_is_not_picked_up_witness :
  path_exists loaded_world (llm_model_path loaded_world) = true
  /\ exists g',
       config loaded_world degraded_handlers demo_state = (Ok g', demo_state)
       /\ llm_handler g' = Some {| llm := llm demo_handler |}
       /\ pipeline g' = Some (pipeline_with None).
Proof.
  split; [reflexivity|].
  destruct (late_model_is_not_picked_up loaded_world degraded_handlers
              (pipeline_with None) (llm demo_handler) demo_state)
    as (g' & Hc & Hh & Hp & _); try reflexivity.
  exists g'. auto.
Defined.

Lemma config_propagates_loader_errors_witness :
  load_llama corrupt_world (llm_model_path corrupt_world)
  = Raise (Exn "ValueError" "Failed to load model from file")
  /\ config corrupt_world no_handlers demo_state
     = (Raise (Exn "ValueError" "Failed to load model from file"), demo_state).
Proof.
  split; [reflexivity|].
  apply (config_propagates_loader_errors corrupt_world); [reflexivity | reflexivity |].
  discriminate.
Defined.

Lemma execute_never_runs_the_pipeline_witness :
  let run := execute demo_world demo_host demo_handlers demo_configurations
               (Some "a castle at sunset") demo_state in
  run = (fst run, snd run)
  /\ session_memory (snd run) = session_memory demo_state
  /\ db (snd run) = db demo_state.
Proof.
  cbv zeta. split; [vm_compute; reflexivity|].
  destruct (execute_never_runs_the_pipeline demo_world demo_host demo_handlers
              demo_configurations (Some "a castle at sunset") demo_state
              (fst (execute demo_world demo_host demo_handlers demo_configurations
                      (Some "a castle at sunset") demo_state))
              (snd (execute demo_world demo_host demo_handlers demo_configurations
                      (Some "a castle at sunset") demo_state)))
    as (Hs & Hd & _).
  - vm_compute. reflexivity.
  - split; assumption.
Defined.

Lemma execute_valid_request_fails_witness :
  Dict.get "super-user" demo_configurations
  = Some {| app_ids := [TEXT2IMG_APP_ID; IMG2_3D_APP_ID] |}
  /\ fst (execute demo_world demo_host demo_handlers demo_configurations
            (Some "a castle at sunset") demo_state)
     = Ok "Error processing request: 'coroutine' object is not subscriptable".
Proof.
  split; [reflexivity|].
  rewrite (execute_valid_request_fails demo_world demo_host demo_handlers
             demo_configurations "a" " castle at sunset"
             {| app_ids := [TEXT2IMG_APP_ID; IMG2_3D_APP_ID] |} demo_stub
             (pipeline_with (Some demo_handler)) demo_state);
    try reflexivity.
  discriminate.
Defined.
